(** * genfreqs.c: brute-force search of the RP2040 PWM DIV and TOP registers

    A shallow embedding of [src/extra/genfreqs.c].  A C [double] is an IEEE-754
    binary64 number, modelled by Rocq's primitive [float]; [uint32_t] and [int]
    values are integers in [Z]; the global array [notes] is a list of records;
    standard output is the string the successive [printf] calls produce.

    The loop marked [#pragma omp parallel for] is modelled with its sequential
    semantics (the program as built without OpenMP): iterations run in
    increasing order of [div].  The loop nest itself, [div_loop], takes the
    dividers and the wraps to walk as lists, so that a statement depending on
    the order of the walk has that order as a parameter. *)

From Stdlib Require Import ZArith List Bool Lia Permutation Sorted Reals Lra.
From Stdlib Require Import Uint63 Floats.
From Stdlib Require Import String Ascii HexString DecimalString DecimalPos DecimalN.
Import ListNotations.

Open Scope float_scope.

(** ** Compile-time constants *)

Definition SYS_FREQ_HZ : Z := 280000000.
Definition BASE_NOTE : Z := 69 - 24.
Definition OCTAVES : Z := 5.
Definition NOTE_CNT : Z := OCTAVES * 12.

(** ** The record [note] *)

Record note := mk_note {
  freq : float;
  top : Z;
  div : Z;
  divf : float;
  out_freq : float;
  err : float
}.

(** ** Integer types and conversions to [double] *)

(** Arithmetic on [uint32_t] wraps around modulo 2^32. *)
Definition u32 (z : Z) : Z := (z mod 2 ^ 32)%Z.

(** [(double)u] for an unsigned [u]. *)
Definition of_uint32 (u : Z) : float := of_uint63 (Uint63.of_Z u).

(** [(double)i] for a signed [int i]. *)
Definition of_int (i : Z) : float :=
  if (i <? 0)%Z then - of_uint63 (Uint63.of_Z (- i)) else of_uint63 (Uint63.of_Z i).

(** [lo, lo+1, ..., hi-1]: the values a counting [for] loop runs through. *)
Definition uint_range (lo hi : Z) : list Z :=
  map Z.of_nat (seq (Z.to_nat lo) (Z.to_nat (hi - lo))).

(** ** printf conversions on integers *)

Definition nl : string := String "010"%char EmptyString.
Definition cr : string := String "013"%char EmptyString.

(** A minimum field width [w], filled on the left with [c]. *)
Definition pad_left (c : ascii) (w : nat) (s : string) : string :=
  (string_of_list_ascii (repeat c (w - String.length s)) ++ s)%string.

(** [%u] *)
Definition fmt_u (u : Z) : string := NilZero.string_of_uint (N.to_uint (Z.to_N u)).
(** [%2u] *)
Definition fmt_2u (u : Z) : string := pad_left " "%char 2 (fmt_u u).
(** [%x] *)
Definition fmt_x (u : Z) : string :=
  match Z.to_N u with
  | N0 => "0"
  | Npos p => HexString.Raw.of_pos p ""
  end.
(** [%04x] *)
Definition fmt_04x (u : Z) : string := pad_left "0"%char 4 (fmt_x u).

(** Reading back a decimal number, and a hexadecimal one after [0x]. *)
Definition parse_u (s : string) : option Z :=
  option_map (fun d => Z.of_N (N.of_uint d)) (NilZero.uint_of_string s).

Definition parse_0x (s : string) : Z := Z.of_N (HexString.to_N s).


(** ** Initialisation (lines 50-55) *)

(** The array has static storage: every field starts at zero. *)
Definition zero_note : note := mk_note 0 0 0 0 0 0.

Definition notes_static : list note := repeat zero_note (Z.to_nat NOTE_CNT).

Section Init.

(** libm's [pow] is outside the repository. *)
Variable pow : float -> float -> float.

Definition note_freq (i : Z) : float :=
  440 * pow 2 (of_int (i + BASE_NOTE - 69) / 12).

Definition init_note (i : Z) (n : note) : note :=
  {| freq := note_freq i;
     top := top n;
     div := div n;
     divf := divf n;
     out_freq := -1;
     err := 9999999999 |}.

(** The loop of lines 51-55 from index [i] on. *)
Fixpoint init_loop (i : Z) (ns : list note) : list note :=
  match ns with
  | [] => []
  | n :: rest => init_note i n :: init_loop (i + 1) rest
  end.

Definition init_notes : list note := init_loop 0 notes_static.

(** [notes[i]] when the search starts. *)
Definition start_note (i : nat) : note := init_note (Z.of_nat i) zero_note.

End Init.

(** ** The search (lines 57-76) *)

(** Body of the innermost loop, for one note (lines 66-73). *)
Definition visit (div0 top0 : Z) (divf0 out_freq0 : float) (n : note) : note :=
  let err0 := abs (freq n - out_freq0) in
  if err0 <? err n then
    {| freq := freq n;
       top := top0;
       div := div0;
       divf := divf0;
       out_freq := out_freq0;
       err := err0 |}
  else n.

(** Loop over [top] for a fixed [div] (lines 62-75). *)
Definition top_loop (tops : list Z) (div0 : Z) (divf0 freq_div : float)
    (ns : list note) : list note :=
  fold_left
    (fun ns top0 =>
       let out_freq0 := freq_div / of_uint32 (u32 (top0 + 1)) in
       map (visit div0 top0 divf0 out_freq0) ns)
    tops ns.

(** Loop over [div] (lines 58-76), without the progress line. *)
Definition div_loop (divs tops : list Z) (ns : list note) : list note :=
  fold_left
    (fun ns div0 =>
       let divf0 := of_uint32 div0 * 0.0625 in
       let freq_div := of_int SYS_FREQ_HZ / divf0 in
       top_loop tops div0 divf0 freq_div ns)
    divs ns.

(** [div] runs from [1<<4] to [(1<<12) - 1], [top] from 0 to 65535. *)
Definition DIVS : list Z := uint_range (2 ^ 4) (2 ^ 12).
Definition TOPS : list Z := uint_range 0 65536.

Definition search (ns : list note) : list note := div_loop DIVS TOPS ns.

(** The array when the search is over (line 77). *)
Definition final_notes (pow : float -> float -> float) : list note :=
  search (init_notes pow).


(** ** The same search, note by note

    Each note is updated independently of the others, so the loop nest is a
    reduction of the list of (div, top) pairs for every note.  The functions
    below name the quantities of the search as the specification does. *)

(** [divisor = raw * 0.0625]. *)
Definition divisor (raw : Z) : float := of_uint32 raw * 0.0625.

(** [freq_after_divider = clock_frequency / divisor]. *)
Definition freq_after_divider (raw : Z) : float := of_int SYS_FREQ_HZ / divisor raw.

(** [output_frequency = freq_after_divider / (wrap + 1)]. *)
Definition output_frequency (raw wrap : Z) : float :=
  freq_after_divider raw / of_uint32 (u32 (wrap + 1)).

(** [error = |target_frequency - output_frequency|]. *)
Definition candidate_error (n : note) (c : Z * Z) : float :=
  abs (freq n - output_frequency (fst c) (snd c)).

(** The note once the pair [c] has become its best. *)
Definition taken (n : note) (c : Z * Z) : note :=
  {| freq := freq n;
     top := snd c;
     div := fst c;
     divf := divisor (fst c);
     out_freq := output_frequency (fst c) (snd c);
     err := candidate_error n c |}.

Definition consider (n : note) (c : Z * Z) : note :=
  if candidate_error n c <? err n then taken n c else n.

Definition best_of (cands : list (Z * Z)) (n : note) : note :=
  fold_left consider cands n.

(** The search space in the order the loops walk it. *)
Definition search_space : list (Z * Z) := list_prod DIVS TOPS.

(** ** Reporting (lines 77-99) *)

Open Scope string_scope.

(** One entry of the table (line 93). *)
Definition table_pair (n : note) : string :=
  "(0x" ++ fmt_x (div n) ++ ",0x" ++ fmt_x (top n) ++ ")".

(** What lines 94-97 print after the entry of index [i]. *)
Definition table_separator (i : Z) : string :=
  (if (i <? NOTE_CNT - 1)%Z then "," else "") ++
  (if ((i mod 7 =? 6) && (i <? NOTE_CNT - 1))%Z then nl ++ "            " else "").

(** The loop of lines 92-98 from index [i] on, over the entries left. *)
Fixpoint table_loop (i : Z) (pairs : list string) : string :=
  match pairs with
  | [] => ""
  | p :: rest => p ++ table_separator i ++ table_loop (i + 1) rest
  end.

Definition table_header : string :=
  "# This table is generated using genfreqs.c" ++ nl.

Definition table_block (ns : list note) : string :=
  table_header ++ nl ++ "pwm_cfgs = [" ++ table_loop 0 (map table_pair ns) ++ "]" ++ nl.

(** The layout of the table as the specification words it: the entries in
    rows of seven, commas between entries, a line break between rows. *)
Fixpoint rows_of (fuel k : nat) (l : list string) : list (list string) :=
  match fuel with
  | O => []
  | S fuel' =>
      match l with
      | [] => []
      | _ => firstn k l :: rows_of fuel' k (skipn k l)
      end
  end.

Definition table_layout (pairs : list string) : string :=
  String.concat ("," ++ nl ++ "            ")
    (map (String.concat ",") (rows_of (List.length pairs) 7 pairs)).

Section Output.

(** [printf]'s [%w.plf] conversion (width, precision, value) is outside the
    repository, as libm's [pow] is. *)
Variable pow : float -> float -> float.
Variable fmt_lf : nat -> nat -> float -> string.

(** Line 82. *)
Definition no_config_line (i : Z) : string := fmt_u i ++ ": no config" ++ nl.

(** Lines 85-86. *)
Definition config_line (i : Z) (n : note) : string :=
  fmt_2u i ++ ": " ++ fmt_lf 7%nat 2%nat (freq n) ++ " -> " ++
  fmt_lf 7%nat 2%nat (out_freq n) ++ " (err=" ++ fmt_lf 4%nat 2%nat (err n) ++
  ") : 0x" ++ fmt_04x (div n) ++ " (" ++ fmt_lf 6%nat 2%nat (divf n) ++
  ") , 0x" ++ fmt_04x (top n) ++ nl.

Definition report_line (i : Z) (n : note) : string :=
  if (out_freq n =? -1)%float then no_config_line i else config_line i n.

(** The loop of lines 80-87 from index [i] on. *)
Fixpoint report_loop (i : Z) (ns : list note) : string :=
  match ns with
  | [] => ""
  | n :: rest => report_line i n ++ report_loop (i + 1) rest
  end.

(** Line 60, once per value of [div]. *)
Definition progress_line (d : Z) : string :=
  cr ++ fmt_lf 6%nat 2%nat (divisor d) ++ "    ".

(** Everything [main] writes to standard output, and its exit status. *)
Definition main : string * Z :=
  let notes := final_notes pow in
  (String.concat "" (map progress_line DIVS) ++
   cr ++ "             " ++ nl ++
   report_loop 0 notes ++
   table_block notes,
   0%Z).

End Output.

Close Scope string_scope.

(** ** What is assumed of libm's [pow]

    The sixty arguments the program passes to [pow] are [(i - 24) / 12.].
    [equal_tempered i] is the binary64 number nearest to the real number
    2^((i - 24)/12); [pow_accurate] asks that [pow] return it or one of its
    two neighbours at each of these arguments, as glibc's [pow] does. *)

Definition semitone (i : Z) : float := of_int (i + BASE_NOTE - 69) / 12.

Definition semitone_ratio : list float :=
  [0x1.0p0; 0x1.0f38f92d97963p0; 0x1.1f59ac3c7d6cp0; 0x1.306fe0a31b715p0;
   0x1.428a2f98d728bp0; 0x1.55b8108f0ec5ep0; 0x1.6a09e667f3bcdp0; 0x1.7f910d768cfbp0;
   0x1.965fea53d6e3dp0; 0x1.ae89f995ad3adp0; 0x1.c823e074ec129p0; 0x1.e3437e7101344p0].

Definition octave_scale : list float := [0.25; 0.5; 1; 2; 4].

Definition equal_tempered (i : nat) : float :=
  nth (i mod 12) semitone_ratio nan * nth (i / 12) octave_scale nan.

(** [x] is a binary64 number nearest to 2^(k/12): with [x = m * 2^e],
    [(m - 1/2) * 2^e <= 2^(k/12) <= (m + 1/2) * 2^e], both sides raised to the
    twelfth power. *)
Definition nearest_to_root (k : Z) (x : float) : bool :=
  match Prim2SF x with
  | S754_finite false m e =>
      let c := (2 ^ (k - 12 * (e - 1)))%Z in
      ((2 * Zpos m - 1) ^ 12 <=? c)%Z && (c <=? (2 * Zpos m + 1) ^ 12)%Z
  | _ => false
  end.

Definition neighbours (t : float) : list float := [next_down t; t; next_up t].

Definition within_one_ulp (p t : float) : bool :=
  existsb (Leibniz.eqb p) (neighbours t).

Definition note_indices : list nat := seq 0 (Z.to_nat NOTE_CNT).

Definition pow_accurate (pow : float -> float -> float) : Prop :=
  forallb (fun i => within_one_ulp (pow 2 (semitone (Z.of_nat i))) (equal_tempered i))
    note_indices = true.

(** A sample [pow]: the values glibc's [pow] returns on x86-64 for the sixty
    arguments, NaN elsewhere. *)
Definition libm_pow2 : list float :=
  [0x1.0p-2; 0x1.0f38f92d97963p-2; 0x1.1f59ac3c7d6cp-2; 0x1.306fe0a31b715p-2;
   0x1.428a2f98d728bp-2; 0x1.55b8108f0ec5ep-2; 0x1.6a09e667f3bcdp-2; 0x1.7f910d768cfbp-2;
   0x1.965fea53d6e3dp-2; 0x1.ae89f995ad3adp-2; 0x1.c823e074ec129p-2; 0x1.e3437e7101344p-2;
   0x1.0p-1; 0x1.0f38f92d97963p-1; 0x1.1f59ac3c7d6cp-1; 0x1.306fe0a31b715p-1;
   0x1.428a2f98d728bp-1; 0x1.55b8108f0ec5ep-1; 0x1.6a09e667f3bcdp-1; 0x1.7f910d768cfbp-1;
   0x1.965fea53d6e3dp-1; 0x1.ae89f995ad3adp-1; 0x1.c823e074ec129p-1; 0x1.e3437e7101344p-1;
   0x1.0p0; 0x1.0f38f92d97963p0; 0x1.1f59ac3c7d6cp0; 0x1.306fe0a31b715p0;
   0x1.428a2f98d728bp0; 0x1.55b8108f0ec5ep0; 0x1.6a09e667f3bcdp0; 0x1.7f910d768cfbp0;
   0x1.965fea53d6e3cp0; 0x1.ae89f995ad3adp0; 0x1.c823e074ec129p0; 0x1.e3437e7101343p0;
   0x1.0p1; 0x1.0f38f92d97963p1; 0x1.1f59ac3c7d6cp1; 0x1.306fe0a31b715p1;
   0x1.428a2f98d728bp1; 0x1.55b8108f0ec5ep1; 0x1.6a09e667f3bcdp1; 0x1.7f910d768cfbp1;
   0x1.965fea53d6e3dp1; 0x1.ae89f995ad3adp1; 0x1.c823e074ec129p1; 0x1.e3437e7101344p1;
   0x1.0p2; 0x1.0f38f92d97963p2; 0x1.1f59ac3c7d6bfp2; 0x1.306fe0a31b715p2;
   0x1.428a2f98d728bp2; 0x1.55b8108f0ec5dp2; 0x1.6a09e667f3bcdp2; 0x1.7f910d768cfb1p2;
   0x1.965fea53d6e3cp2; 0x1.ae89f995ad3adp2; 0x1.c823e074ec12ap2; 0x1.e3437e7101343p2].

Definition pow_sample (x y : float) : float :=
  match find (fun i => Leibniz.eqb y (semitone (Z.of_nat i))) note_indices with
  | Some i => if Leibniz.eqb x 2 then nth i libm_pow2 nan else nan
  | None => nan
  end.

(** ** Auxiliary notions on binary64 numbers *)

(** [SFcompare] on two finite numbers of the same sign is the lexicographic
    order on (exponent, mantissa). *)
Definition lex (e1 : Z) (m1 : positive) (e2 : Z) (m2 : positive) : comparison :=
  match (e1 ?= e2)%Z with
  | Lt => Lt
  | Gt => Gt
  | Eq => (m1 ?= m2)%positive
  end.

(** NaN or a number whose sign bit is clear. *)
Definition sf_nonneg (x : spec_float) : bool :=
  match x with
  | S754_zero s | S754_infinity s | S754_finite s _ _ => negb s
  | S754_nan => true
  end.

(** The real number [2^e], the real value of a finite binary64 number, and
    the bound [2^-52] on the relative error of one rounding. *)
Definition bpow (e : Z) : R := powerRZ 2 e.

Definition FR (m : positive) (e : Z) : R := (IZR (Zpos m) * bpow e)%R.

Definition u52 : R := bpow (-52).

(** ** The two best pairs for note 24 (440 Hz)

    Both have [div * (top + 1) = 10181818] and the output frequency nearest to
    440 Hz that the search space holds. *)
Definition optimum_a : Z * Z := (607, 16773)%Z.
Definition optimum_b : Z * Z := (1214, 8386)%Z.
Definition note_a4 : note := start_note pow_sample 24.
Definition least_error : float := candidate_error note_a4 optimum_a.

(** ** A reference table

    For every note a pair of the search space close to its target: an upper
    bound on what the search can end with. *)
Definition reference_pairs : list (Z * Z) :=
  [(713, 57120); (3389, 11342); (696, 52131); (1207, 28373); (921, 35097); (562, 54289);
   (690, 41736); (1191, 22822); (3037, 8447); (967, 25042); (448, 51020); (631, 34190);
   (607, 33547); (4061, 4732); (348, 52131); (1207, 14186); (921, 17548); (281, 54289);
   (345, 41736); (344, 39508); (3037, 4223); (219, 55288); (224, 51020); (220, 49032);
   (607, 16773); (241, 39876); (174, 52131); (317, 27008); (149, 54236); (281, 27144);
   (911, 7902); (172, 39508); (3037, 2111); (139, 43554); (112, 51020); (110, 49032);
   (607, 8386); (4011, 1197); (87, 52131); (76, 56327); (259, 15600); (193, 19760);
   (76, 47365); (86, 39508); (3037, 1055); (49, 61776); (56, 51020); (55, 49032);
   (165, 15426); (4011, 598); (58, 39098); (38, 56327); (65, 31081); (349, 5463);
   (38, 47365); (43, 39508); (3037, 527); (24, 63063); (28, 51020); (41, 32887)]%Z.

(** * Facts on binary64 comparisons and signs *)

Module Binary64.

Lemma SFltb_irrefl (x : spec_float) : SFltb x x = false.
Proof.
  unfold SFltb.
  destruct x as [s|s| |s m e]; simpl; try destruct s; try reflexivity;
    rewrite Z.compare_refl; change (Pos.compare_cont Eq m m) with (m ?= m)%positive;
    rewrite Pos.compare_refl; reflexivity.
Qed.

Lemma lex_Lt e1 m1 e2 m2 :
  lex e1 m1 e2 m2 = Lt <-> (e1 < e2 \/ (e1 = e2 /\ Zpos m1 < Zpos m2))%Z.
Proof.
  unfold lex.
  destruct (Z.compare_spec e1 e2); destruct (Pos.compare_spec m1 m2);
    split; intros; try discriminate; try reflexivity; lia.
Qed.

Lemma lex_Gt e1 m1 e2 m2 :
  lex e1 m1 e2 m2 = Gt <-> (e2 < e1 \/ (e1 = e2 /\ Zpos m2 < Zpos m1))%Z.
Proof.
  unfold lex.
  destruct (Z.compare_spec e1 e2); destruct (Pos.compare_spec m1 m2);
    split; intros; try discriminate; try reflexivity; lia.
Qed.

Lemma lex_Eq e1 m1 e2 m2 :
  lex e1 m1 e2 m2 = Eq <-> (e1 = e2 /\ m1 = m2).
Proof.
  unfold lex.
  destruct (Z.compare_spec e1 e2); destruct (Pos.compare_spec m1 m2);
    split; intros; try discriminate; try reflexivity; try lia; intuition congruence.
Qed.

Lemma SFcompare_finite s1 m1 e1 s2 m2 e2 :
  SFcompare (S754_finite s1 m1 e1) (S754_finite s2 m2 e2) =
  Some match s1, s2 with
       | true, false => Lt
       | false, true => Gt
       | false, false => lex e1 m1 e2 m2
       | true, true =>
           match lex e1 m1 e2 m2 with Lt => Gt | Gt => Lt | Eq => Eq end
       end.
Proof.
  unfold lex; simpl. destruct s1, s2; try reflexivity.
  destruct (e1 ?= e2)%Z; reflexivity.
Qed.

Ltac sf_cases :=
  repeat match goal with
         | s : bool |- _ => destruct s
         end;
  simpl; try reflexivity; try discriminate.

Lemma SFltb_trans (x y z : spec_float) :
  SFltb x y = true -> SFltb y z = true -> SFltb x z = true.
Proof.
  unfold SFltb.
  destruct x as [sx|sx| |sx mx ex], y as [sy|sy| |sy my ey], z as [sz|sz| |sz mz ez];
    try rewrite !SFcompare_finite; sf_cases.
  - destruct (lex ex mx ey my) eqn:E1; try discriminate.
    destruct (lex ey my ez mz) eqn:E2; try discriminate.
    intros _ _. apply lex_Gt in E1, E2.
    assert (E3 : lex ex mx ez mz = Gt) by (apply lex_Gt; lia).
    rewrite E3; reflexivity.
  - destruct (lex ex mx ey my) eqn:E1; try discriminate.
    destruct (lex ey my ez mz) eqn:E2; try discriminate.
    intros _ _. apply lex_Lt in E1, E2.
    assert (E3 : lex ex mx ez mz = Lt) by (apply lex_Lt; lia).
    rewrite E3; reflexivity.
Qed.

Lemma SFleb_ltb_trans (x y z : spec_float) :
  SFleb x y = true -> SFltb y z = true -> SFltb x z = true.
Proof.
  unfold SFltb, SFleb.
  destruct x as [sx|sx| |sx mx ex], y as [sy|sy| |sy my ey], z as [sz|sz| |sz mz ez];
    try rewrite !SFcompare_finite; sf_cases.
  - destruct (lex ex mx ey my) eqn:E1; try discriminate;
    destruct (lex ey my ez mz) eqn:E2; try discriminate; intros _ _.
    + apply lex_Eq in E1. destruct E1; subst. rewrite E2. reflexivity.
    + apply lex_Gt in E1, E2.
      assert (E3 : lex ex mx ez mz = Gt) by (apply lex_Gt; lia).
      rewrite E3; reflexivity.
  - destruct (lex ex mx ey my) eqn:E1; try discriminate;
    destruct (lex ey my ez mz) eqn:E2; try discriminate; intros _ _.
    + apply lex_Eq in E1. destruct E1; subst. rewrite E2. reflexivity.
    + apply lex_Lt in E1, E2.
      assert (E3 : lex ex mx ez mz = Lt) by (apply lex_Lt; lia).
      rewrite E3; reflexivity.
Qed.

Lemma SFabs_antisym (x y z z' : spec_float) :
  SFltb (SFabs x) (SFabs y) = false ->
  SFltb (SFabs y) (SFabs x) = false ->
  SFltb (SFabs x) z = true ->
  SFltb (SFabs y) z' = true ->
  SFabs x = SFabs y.
Proof.
  unfold SFltb.
  destruct x as [sx|sx| |sx mx ex], y as [sy|sy| |sy my ey];
    simpl; try reflexivity; try discriminate.
  intros H1 H2 _ _. revert H1 H2.
  change (Pos.compare_cont Eq mx my) with (mx ?= my)%positive.
  change (Pos.compare_cont Eq my mx) with (my ?= mx)%positive.
  destruct (Z.compare_spec ex ey); destruct (Z.compare_spec ey ex);
    try lia; try discriminate.
  destruct (Pos.compare_spec mx my); destruct (Pos.compare_spec my mx);
    try lia; try discriminate; intros _ _; congruence.
Qed.


Lemma binary_round_aux_nonneg m e l :
  sf_nonneg (binary_round_aux prec emax false m e l) = true.
Proof.
  unfold binary_round_aux.
  destruct (shr_fexp prec emax m e l) as [mrs' e'].
  destruct (shr_fexp prec emax _ e' loc_Exact) as [mrs'' e''].
  destruct (shr_m mrs''); try reflexivity.
  destruct (e'' <=? emax - prec)%Z; reflexivity.
Qed.

Lemma of_uint63_nonneg i : sf_nonneg (Prim2SF (of_uint63 i)) = true.
Proof.
  rewrite of_uint63_spec. unfold binary_normalize.
  destruct (Uint63.to_Z i) eqn:E; try reflexivity.
  - unfold binary_round. destruct (shl_align _ _ _). apply binary_round_aux_nonneg.
  - pose proof (Uint63.to_Z_bounded i). lia.
Qed.

Lemma SFmul_nonneg x y :
  sf_nonneg x = true -> sf_nonneg y = true -> sf_nonneg (SFmul prec emax x y) = true.
Proof.
  destruct x as [sx|sx| |sx mx ex], y as [sy|sy| |sy my ey]; simpl;
    try destruct sx; try destruct sy; simpl; try discriminate; try reflexivity.
  intros _ _. apply binary_round_aux_nonneg.
Qed.

Lemma SFdiv_nonneg x y :
  sf_nonneg x = true -> sf_nonneg y = true -> sf_nonneg (SFdiv prec emax x y) = true.
Proof.
  destruct x as [sx|sx| |sx mx ex], y as [sy|sy| |sy my ey]; simpl;
    try destruct sx; try destruct sy; simpl; try discriminate; try reflexivity.
  intros _ _. destruct (SFdiv_core_binary _ _ _ _ _ _) as [[mz ez] lz].
  apply binary_round_aux_nonneg.
Qed.

Lemma nonneg_not_negative x m e :
  sf_nonneg x = true -> SFeqb x (S754_finite true m e) = false.
Proof.
  unfold SFeqb. destruct x as [[]|[]| |[] m' e']; simpl;
    try discriminate; reflexivity.
Qed.

Lemma nonneg_not_minus_one x :
  sf_nonneg x = true -> SFeqb x (Prim2SF (-1)) = false.
Proof.
  change (Prim2SF (-1)) with (S754_finite true 4503599627370496 (-52)).
  apply nonneg_not_negative.
Qed.

(** Lifting to primitive floats. *)

Lemma ltb_irrefl (x : float) : (x <? x) = false.
Proof. rewrite FloatAxioms.ltb_spec. apply SFltb_irrefl. Qed.

Lemma ltb_trans (x y z : float) :
  (x <? y) = true -> (y <? z) = true -> (x <? z) = true.
Proof. rewrite !FloatAxioms.ltb_spec. apply SFltb_trans. Qed.

Lemma leb_ltb_trans (x y z : float) :
  (x <=? y) = true -> (y <? z) = true -> (x <? z) = true.
Proof. rewrite FloatAxioms.leb_spec, !FloatAxioms.ltb_spec. apply SFleb_ltb_trans. Qed.

Lemma abs_antisym (x y z z' : float) :
  (abs x <? abs y) = false ->
  (abs y <? abs x) = false ->
  (abs x <? z) = true ->
  (abs y <? z') = true ->
  abs x = abs y.
Proof.
  rewrite !FloatAxioms.ltb_spec, !FloatAxioms.abs_spec. intros H1 H2 H3 H4.
  apply Prim2SF_inj. rewrite !FloatAxioms.abs_spec.
  eapply SFabs_antisym; eassumption.
Qed.

End Binary64.

(** * Rounding: enclosures of the binary64 operations

    Each operation on finite numbers in the normal range returns a number
    within a relative distance [2^-52] of the exact result. *)

Section Rounding.
Local Open Scope Z_scope.

Lemma digits2_pos_bounds m :
  2 ^ (Zpos (digits2_pos m) - 1) <= Zpos m < 2 ^ Zpos (digits2_pos m).
Proof.
  induction m as [m IH|m IH|]; cbn [digits2_pos].
  - rewrite Pos2Z.inj_succ.
    replace (Z.succ (Zpos (digits2_pos m)) - 1) with (Z.succ (Zpos (digits2_pos m) - 1)) by lia.
    rewrite !Z.pow_succ_r by lia. lia.
  - rewrite Pos2Z.inj_succ.
    replace (Z.succ (Zpos (digits2_pos m)) - 1) with (Z.succ (Zpos (digits2_pos m) - 1)) by lia.
    rewrite !Z.pow_succ_r by lia. lia.
  - simpl. lia.
Qed.

Lemma digits2_pos_unique m k :
  2 ^ (k - 1) <= Zpos m < 2 ^ k -> Zpos (digits2_pos m) = k.
Proof.
  intros [H1 H2]. pose proof (digits2_pos_bounds m) as [B1 B2].
  assert (Hk : 0 < k).
  { destruct (Z_lt_le_dec 0 k) as [|Hk]; [assumption|].
    assert (2 ^ k <= 1).
    { destruct (Z.eq_dec k 0) as [->|]; [simpl; lia|]. rewrite Z.pow_neg_r by lia. lia. }
    lia. }
  destruct (Z.lt_trichotomy (Zpos (digits2_pos m)) k) as [H|[H|H]]; [|exact H|].
  - assert (2 ^ Zpos (digits2_pos m) <= 2 ^ (k - 1)) by (apply Z.pow_le_mono_r; lia). lia.
  - assert (2 ^ k <= 2 ^ (Zpos (digits2_pos m) - 1)) by (apply Z.pow_le_mono_r; lia). lia.
Qed.

(** Shifting right. *)
Lemma shr_1_m mrs : 0 <= shr_m mrs -> shr_m (shr_1 mrs) = shr_m mrs / 2.
Proof.
  destruct mrs as [m r s]; simpl. intros Hm.
  destruct m as [|[p|p|]|p]; simpl; try reflexivity; try lia.
  - rewrite Pos2Z.inj_xI. apply Z.div_unique with (r := 1); lia.
  - rewrite Pos2Z.inj_xO. apply Z.div_unique with (r := 0); lia.
Qed.

Lemma iter_shr_1_m p : forall mrs,
  0 <= shr_m mrs ->
  shr_m (iter_pos shr_1 p mrs) = shr_m mrs / 2 ^ Zpos p /\ 0 <= shr_m (iter_pos shr_1 p mrs).
Proof.
  assert (Hdiv : forall a b, 0 <= a -> 0 < b -> 0 <= a / b)
    by (intros; apply Z.div_pos; lia).
  induction p as [p IH|p IH|]; intros mrs Hm; cbn [iter_pos].
  - pose proof (shr_1_m mrs Hm) as H1.
    assert (H1' : 0 <= shr_m (shr_1 mrs)) by (rewrite H1; apply Hdiv; lia).
    destruct (IH _ H1') as [H2 H2'].
    destruct (IH _ H2') as [H3 H3'].
    split; [|exact H3'].
    rewrite H3, H2, H1, Pos2Z.inj_xI.
    rewrite !Z.div_div by (try apply Z.pow_pos_nonneg; lia).
    f_equal. rewrite Z.pow_add_r, Z.pow_mul_r by lia.
    change (2 ^ 2) with 4. change (2 ^ 1) with 2.
    replace (4 ^ Zpos p) with (2 ^ Zpos p * 2 ^ Zpos p).
    + ring.
    + rewrite <- Z.pow_add_r by lia. replace (Zpos p + Zpos p) with (2 * Zpos p) by lia.
      rewrite Z.pow_mul_r by lia. reflexivity.
  - destruct (IH _ Hm) as [H2 H2'].
    destruct (IH _ H2') as [H3 H3'].
    split; [|exact H3'].
    rewrite H3, H2, Pos2Z.inj_xO.
    rewrite !Z.div_div by (try apply Z.pow_pos_nonneg; lia).
    f_equal. rewrite <- Z.pow_add_r by lia. f_equal. lia.
  - pose proof (shr_1_m mrs Hm) as H1. split.
    + rewrite H1. reflexivity.
    + rewrite H1. apply Hdiv; lia.
Qed.

Lemma fexp_normal x : -1021 <= x -> fexp prec emax x = x - 53.
Proof. intros H. unfold fexp, SpecFloat.emin, prec, emax. lia. Qed.

Lemma shr_m_of_loc m l : shr_m (shr_record_of_loc m l) = m.
Proof. destruct l as [|[]]; reflexivity. Qed.

Lemma round_nearest_even_cases m l :
  round_nearest_even m l = m \/ round_nearest_even m l = m + 1.
Proof.
  unfold round_nearest_even. destruct l as [|[]]; auto. destruct (Z.even m); auto.
Qed.

(** Shifting a record right by [n >= 0] places divides its mantissa by [2^n]. *)
Lemma shr_m_shr mrs e n :
  0 <= shr_m mrs -> 0 <= n ->
  shr_m (fst (shr mrs e n)) = shr_m mrs / 2 ^ n /\ snd (shr mrs e n) = e + n.
Proof.
  intros Hm Hn. unfold shr. destruct n as [|p|p]; simpl fst; simpl snd.
  - rewrite Z.pow_0_r, Z.div_1_r. split; [reflexivity|lia].
  - split; [apply iter_shr_1_m; exact Hm|reflexivity].
  - lia.
Qed.

Lemma Zdigits2_pos q : Zdigits2 (Zpos q) = Zpos (digits2_pos q).
Proof. reflexivity. Qed.

Lemma pow2_split a b : 0 <= a -> 0 <= b -> 2 ^ (a + b) = 2 ^ a * 2 ^ b.
Proof. intros. apply Z.pow_add_r; assumption. Qed.

Lemma binary_round_aux_enclosure s q e l :
  53 <= Zpos (digits2_pos q) ->
  -1021 <= Zpos (digits2_pos q) + e <= 1023 ->
  exists m k,
    binary_round_aux prec emax s (Zpos q) e l = S754_finite s m (e + k) /\
    Zpos (digits2_pos m) = 53 /\
    (k = Zpos (digits2_pos q) - 53 \/ k = Zpos (digits2_pos q) - 53 + 1) /\
    exists A,
      A <= Zpos q < A + 2 ^ (Zpos (digits2_pos q) - 53) /\
      A <= Zpos m * 2 ^ k <= A + 2 ^ (Zpos (digits2_pos q) - 53) /\
      2 ^ 52 * 2 ^ (Zpos (digits2_pos q) - 53) <= A.
Proof.
  intros Hd Hr.
  pose proof (digits2_pos_bounds q) as [Hq1 Hq2].
  set (d := Zpos (digits2_pos q)) in *.
  set (n := d - 53).
  assert (Hn : 0 <= n) by (unfold n; lia).
  assert (Hpn : 0 < 2 ^ n) by (apply Z.pow_pos_nonneg; lia).
  set (m1 := Zpos q / 2 ^ n).
  assert (Hm1 : 2 ^ 52 <= m1 < 2 ^ 53).
  { unfold m1. split.
    - apply Z.div_le_lower_bound; [exact Hpn|].
      rewrite <- pow2_split by lia. replace (n + 52) with (d - 1) by (unfold n; lia). exact Hq1.
    - apply Z.div_lt_upper_bound; [exact Hpn|].
      rewrite <- pow2_split by lia. replace (n + 53) with d by (unfold n; lia). exact Hq2. }
  assert (HA : m1 * 2 ^ n <= Zpos q < m1 * 2 ^ n + 2 ^ n).
  { unfold m1. pose proof (Z.mul_div_le (Zpos q) (2 ^ n) Hpn).
    pose proof (Z.mul_succ_div_gt (Zpos q) (2 ^ n) Hpn). lia. }
  unfold binary_round_aux.
  (* first shift *)
  unfold shr_fexp at 1. rewrite Zdigits2_pos. fold d.
  rewrite fexp_normal by lia.
  replace (d + e - 53 - e) with n by (unfold n; lia).
  pose proof (shr_m_shr (shr_record_of_loc (Zpos q) l) e n) as Hs.
  rewrite shr_m_of_loc in Hs. specialize (Hs ltac:(lia) Hn).
  destruct (shr (shr_record_of_loc (Zpos q) l) e n) as [mrs' e'].
  simpl fst in Hs. simpl snd in Hs. destruct Hs as [Hs1 Hs2]. fold m1 in Hs1.
  rewrite Hs1. subst e'.
  (* rounding *)
  set (m2 := round_nearest_even m1 (loc_of_shr_record mrs')).
  assert (Hm2 : m2 = m1 \/ m2 = m1 + 1) by apply round_nearest_even_cases.
  assert (Hm2pos : 0 < m2) by lia.
  destruct m2 as [|p2|p2] eqn:Em2; try lia.
  (* second shift *)
  unfold shr_fexp. rewrite Zdigits2_pos.
  destruct (Z_lt_le_dec (Zpos p2) (2 ^ 53)) as [Hlt|Hge].
  - assert (Hd2 : Zpos (digits2_pos p2) = 53) by (apply digits2_pos_unique; change (53 - 1) with 52; lia).
    rewrite Hd2. rewrite fexp_normal by lia.
    replace (53 + (e + n) - 53 - (e + n)) with 0 by lia.
    cbn [shr shr_record_of_loc shr_m].
    assert (He : (e + n <=? emax - prec) = true) by (apply Z.leb_le; unfold emax, prec, n; lia).
    rewrite He. exists p2, n. repeat split.
    + exact Hd2.
    + left. reflexivity.
    + exists (m1 * 2 ^ n). fold n. nia.
  - assert (Hp2 : Zpos p2 = 2 ^ 53) by lia.
    assert (Hd2 : Zpos (digits2_pos p2) = 54).
    { apply digits2_pos_unique. rewrite Hp2. change (54 - 1) with 53.
      split; [lia|]. apply Z.pow_lt_mono_r; lia. }
    rewrite Hd2. rewrite fexp_normal by lia.
    replace (54 + (e + n) - 53 - (e + n)) with 1 by lia.
    cbn [shr shr_record_of_loc iter_pos].
    assert (Hhalf : shr_m (shr_1 {| shr_m := Zpos p2; shr_r := false; shr_s := false |}) = 2 ^ 52).
    { rewrite shr_1_m by (simpl; lia). simpl shr_m. rewrite Hp2.
      change 53 with (52 + 1). rewrite Z.pow_add_r by lia. change (2 ^ 1) with 2.
      apply Z.div_mul. lia. }
    rewrite Hhalf.
    assert (Hpos : exists p3, 2 ^ 52 = Zpos p3).
    { destruct (2 ^ 52) eqn:E; try (exists p; reflexivity); exfalso;
        assert (0 < 2 ^ 52) by (apply Z.pow_pos_nonneg; lia); lia. }
    destruct Hpos as [p3 Hp3]. rewrite Hp3.
    assert (He : (e + n + 1 <=? emax - prec) = true) by (apply Z.leb_le; unfold emax, prec, n; lia).
    rewrite He. exists p3, (n + 1). repeat split.
    + f_equal; lia.
    + apply digits2_pos_unique. rewrite <- Hp3. change (53 - 1) with 52.
      split; [lia|]. apply Z.pow_lt_mono_r; lia.
    + right. reflexivity.
    + exists (m1 * 2 ^ n). fold n. rewrite <- Hp3, pow2_split by lia. change (2 ^ 1) with 2.
      assert (2 ^ 53 = 2 * 2 ^ 52) by (change 53 with (52 + 1); rewrite Z.pow_add_r by lia; lia).
      nia.
Qed.

Lemma bpow_add a b : bpow (a + b) = (bpow a * bpow b)%R.
Proof. unfold bpow. apply powerRZ_add. lra. Qed.

Lemma bpow_pos e : (0 < bpow e)%R.
Proof. unfold bpow. apply powerRZ_lt. lra. Qed.

Lemma IZR_pow2 k : 0 <= k -> IZR (2 ^ k) = bpow k.
Proof.
  intros Hk. unfold bpow. destruct k as [|p|p]; [reflexivity| |lia].
  change (2 ^ Zpos p) with (Z.pow_pos 2 p). apply Zpower_pos_powerRZ.
Qed.

Lemma bpow_opp e : (bpow (- e) * bpow e = 1)%R.
Proof.
  rewrite <- bpow_add. replace (- e + e) with 0 by lia. reflexivity.
Qed.

Lemma u52_pos : (0 < u52)%R.
Proof. apply bpow_pos. Qed.

Lemma u52_scale : (u52 * IZR (2 ^ 52) = 1)%R.
Proof. rewrite IZR_pow2 by lia. apply (bpow_opp 52). Qed.

Lemma binary_round_aux_real s q e l :
  53 <= Zpos (digits2_pos q) ->
  -1021 <= Zpos (digits2_pos q) + e <= 1023 ->
  exists m e2,
    binary_round_aux prec emax s (Zpos q) e l = S754_finite s m e2 /\
    Zpos (digits2_pos m) = 53 /\
    e + Zpos (digits2_pos q) - 53 <= e2 <= e + Zpos (digits2_pos q) - 52 /\
    forall v : R,
      (IZR (Zpos q) * bpow e <= v <= (IZR (Zpos q) + 1) * bpow e)%R ->
      ((1 - u52) * v <= IZR (Zpos m) * bpow e2 <= (1 + u52) * v)%R.
Proof.
  intros Hd Hr.
  destruct (binary_round_aux_enclosure s q e l Hd Hr)
    as (m & k & Heq & Hdm & Hk & A & HA1 & HA2 & HA3).
  exists m, (e + k). split; [exact Heq|]. split; [exact Hdm|]. split; [lia|].
  intros v Hv.
  set (n := Zpos (digits2_pos q) - 53) in *.
  assert (Hn : 0 <= n) by (unfold n; lia).
  assert (Hk0 : 0 <= k) by lia.
  rewrite (Z.add_comm e k), bpow_add, <- (IZR_pow2 k) by lia.
  rewrite <- Rmult_assoc, <- mult_IZR.
  pose proof (bpow_pos e) as Hb. pose proof u52_pos as Hu. pose proof u52_scale as Hs.
  destruct HA1 as [HA1a HA1b]. destruct HA2 as [HA2a HA2b].
  assert (HA1c : Zpos q + 1 <= A + 2 ^ n) by lia.
  apply IZR_le in HA1a, HA1c, HA2a, HA2b, HA3.
  rewrite plus_IZR in HA1c, HA2b. rewrite mult_IZR in HA3.
  rewrite plus_IZR in HA1c.
  set (a := IZR A) in *. set (w := IZR (2 ^ n)) in *.
  set (M := IZR (Zpos m * 2 ^ k)) in *. set (qr := IZR (Zpos q)) in *.
  set (b := bpow e) in *. set (c := IZR (2 ^ 52)) in *.
  assert (Hw : (w <= u52 * a)%R).
  { assert (w = u52 * (c * w))%R by (rewrite <- Rmult_assoc, Hs; ring). nra. }
  assert (Hw0 : (0 <= w)%R).
  { unfold w. apply IZR_le. apply Z.lt_le_incl, Z.pow_pos_nonneg; lia. }
  assert (H1 : (a * b <= v)%R) by nra.
  assert (H2 : (v <= (a + w) * b)%R) by nra.
  assert (H3 : (a * b <= M * b)%R) by nra.
  assert (H4 : (M * b <= (a + w) * b)%R) by nra.
  assert (H5 : (w * b <= u52 * (a * b))%R) by nra.
  assert (H6 : (u52 * (a * b) <= u52 * v)%R) by nra.
  split; nra.
Qed.

Lemma digits_53_bounds m : Zpos (digits2_pos m) = 53 -> 2 ^ 52 <= Zpos m < 2 ^ 53.
Proof.
  intros H. pose proof (digits2_pos_bounds m) as B. rewrite H in B. exact B.
Qed.

Lemma digits_between q lo hi :
  0 <= lo -> 2 ^ lo <= Zpos q < 2 ^ hi -> lo < Zpos (digits2_pos q) <= hi.
Proof.
  intros Hlo [H1 H2]. pose proof (digits2_pos_bounds q) as [B1 B2].
  split.
  - destruct (Z_lt_le_dec lo (Zpos (digits2_pos q))) as [|H]; [assumption|].
    assert (2 ^ Zpos (digits2_pos q) <= 2 ^ lo) by (apply Z.pow_le_mono_r; lia). lia.
  - destruct (Z_lt_le_dec hi (Zpos (digits2_pos q))) as [H|]; [|assumption].
    assert (2 ^ hi <= 2 ^ (Zpos (digits2_pos q) - 1)) by (apply Z.pow_le_mono_r; lia). lia.
Qed.

Lemma SFmul_real sx mx ex sy my ey :
  Zpos (digits2_pos mx) = 53 -> Zpos (digits2_pos my) = 53 ->
  -500 <= ex <= 400 -> -500 <= ey <= 400 ->
  exists m e,
    SFmul prec emax (S754_finite sx mx ex) (S754_finite sy my ey) =
      S754_finite (xorb sx sy) m e /\
    Zpos (digits2_pos m) = 53 /\
    ex + ey + 52 <= e <= ex + ey + 54 /\
    ((1 - u52) * (FR mx ex * FR my ey) <= FR m e <= (1 + u52) * (FR mx ex * FR my ey))%R.
Proof.
  intros Hx Hy Hex Hey.
  apply digits_53_bounds in Hx, Hy.
  assert (Hq : 2 ^ 104 <= Zpos (mx * my) < 2 ^ 106).
  { rewrite Pos2Z.inj_mul.
    change (2 ^ 104) with (2 ^ 52 * 2 ^ 52). change (2 ^ 106) with (2 ^ 53 * 2 ^ 53).
    nia. }
  pose proof (digits_between _ 104 106 ltac:(lia) Hq) as Hd.
  cbn [SFmul].
  destruct (binary_round_aux_real (xorb sx sy) (mx * my) (ex + ey) loc_Exact
              ltac:(lia) ltac:(lia)) as (m & e & Heq & Hdm & He & Hv).
  exists m, e. split; [exact Heq|]. split; [exact Hdm|]. split; [lia|].
  apply Hv. unfold FR. rewrite Pos2Z.inj_mul, mult_IZR, bpow_add.
  pose proof (bpow_pos ex). pose proof (bpow_pos ey).
  set (a := IZR (Zpos mx)). set (b := IZR (Zpos my)).
  set (p := bpow ex) in *. set (q := bpow ey) in *.
  assert (0 < p * q)%R by nra.
  split; nra.
Qed.

Lemma SFdiv_core_canonical mx ex my ey :
  Zpos (digits2_pos mx) = 53 -> Zpos (digits2_pos my) = 53 ->
  -1021 <= ex - ey ->
  SFdiv_core_binary prec emax (Zpos mx) ex (Zpos my) ey =
  (Zpos mx * 2 ^ 53 / Zpos my, ex - ey - 53,
   new_location (Zpos my) ((Zpos mx * 2 ^ 53) mod Zpos my)).
Proof.
  intros Hx Hy Hr. unfold SFdiv_core_binary.
  rewrite !Zdigits2_pos, Hx, Hy.
  replace (53 + ex - (53 + ey)) with (ex - ey) by lia.
  rewrite fexp_normal by lia.
  rewrite Z.min_l by lia.
  replace (ex - ey - (ex - ey - 53)) with 53 by lia.
  cbv iota beta. rewrite Z.shiftl_mul_pow2 by lia.
  unfold Z.div, Z.modulo.
  destruct (Z.div_eucl (Zpos mx * 2 ^ 53) (Zpos my)) as [q r]. reflexivity.
Qed.

Lemma SFdiv_real sx mx ex sy my ey :
  Zpos (digits2_pos mx) = 53 -> Zpos (digits2_pos my) = 53 ->
  -400 <= ex <= 400 -> -400 <= ey <= 400 ->
  exists m e,
    SFdiv prec emax (S754_finite sx mx ex) (S754_finite sy my ey) =
      S754_finite (xorb sx sy) m e /\
    Zpos (digits2_pos m) = 53 /\
    ex - ey - 53 <= e <= ex - ey - 51 /\
    ((1 - u52) * (FR mx ex / FR my ey) <= FR m e <= (1 + u52) * (FR mx ex / FR my ey))%R.
Proof.
  intros Hx Hy Hex Hey.
  cbn [SFdiv]. rewrite (SFdiv_core_canonical mx ex my ey Hx Hy ltac:(lia)).
  apply digits_53_bounds in Hx, Hy.
  set (a := Zpos mx * 2 ^ 53).
  pose proof (Z.div_mod a (Zpos my) ltac:(lia)) as Hdm.
  pose proof (Z.mod_pos_bound a (Zpos my) ltac:(lia)) as Hmod.
  set (q := a / Zpos my) in *.
  assert (Hq1 : q * Zpos my <= a < (q + 1) * Zpos my) by lia.
  assert (Hq : 2 ^ 52 <= q < 2 ^ 54).
  { assert (2 ^ 105 <= a < 2 ^ 106).
    { unfold a. change (2 ^ 105) with (2 ^ 52 * 2 ^ 53). change (2 ^ 106) with (2 ^ 53 * 2 ^ 53).
      nia. }
    change (2 ^ 105) with (2 ^ 52 * 2 ^ 53) in H. change (2 ^ 106) with (2 ^ 54 * 2 ^ 52) in H.
    split; nia. }
  destruct q as [|pq|pq] eqn:Eq; try lia.
  pose proof (digits_between pq 52 54 ltac:(lia) Hq) as Hd.
  destruct (binary_round_aux_real (xorb sx sy) pq (ex - ey - 53)
              (new_location (Zpos my) (a mod Zpos my)) ltac:(lia) ltac:(lia))
    as (m & e & Heq & Hdm' & He & Hv).
  exists m, e. split; [exact Heq|]. split; [exact Hdm'|]. split; [lia|].
  apply Hv. unfold FR.
  destruct Hq1 as [Hq1a Hq1b].
  assert (Hq1c : a + 1 <= (Zpos pq + 1) * Zpos my) by lia.
  apply IZR_le in Hq1a, Hq1c.
  rewrite mult_IZR in Hq1a. rewrite plus_IZR, mult_IZR, plus_IZR in Hq1c.
  unfold a in Hq1a, Hq1c. rewrite mult_IZR, IZR_pow2 in Hq1a, Hq1c by lia.
  pose proof (bpow_pos ex) as Hp. pose proof (bpow_pos ey) as Hr.
  pose proof (bpow_pos (ex - ey - 53)) as Ht.
  assert (Hrel : (bpow ex = bpow (ex - ey - 53) * bpow 53 * bpow ey)%R).
  { rewrite <- !bpow_add. f_equal. lia. }
  assert (Hb : (0 < IZR (Zpos my))%R) by (apply IZR_lt; lia).
  set (A := IZR (Zpos mx)) in *. set (B := IZR (Zpos my)) in *.
  set (Q := IZR (Zpos pq)) in *.
  set (p := bpow ex) in *. set (r := bpow ey) in *.
  set (t := bpow (ex - ey - 53)) in *. set (c := bpow 53) in *.
  assert (Hval : (A * p / (B * r) = A * c * t / B)%R).
  { rewrite Hrel. field. split; lra. }
  rewrite Hval.
  assert (Hx1 : (A * c * t / B * B = A * c * t)%R) by (field; lra).
  set (v := (A * c * t / B)%R) in *.
  assert (H1 : (Q * B * t <= A * c * t)%R) by nra.
  assert (H2 : (A * c * t + 1 * t <= (Q + 1) * B * t)%R).
  { apply Rmult_le_compat_r with (r := t) in Hq1c; [|lra]. lra. }
  split.
  - apply Rmult_le_reg_r with (r := B); [exact Hb|]. rewrite Hx1. lra.
  - apply Rmult_le_reg_r with (r := B); [exact Hb|]. rewrite Hx1. nra.
Qed.

Lemma iter_xO_mul m d : Zpos (Pos.iter xO m d) = Zpos m * 2 ^ Zpos d.
Proof.
  revert m. induction d as [|d IH] using Pos.peano_ind; intros m.
  - cbn [Pos.iter]. rewrite Pos2Z.inj_xO. lia.
  - rewrite Pos.iter_succ, Pos2Z.inj_xO, IH, Pos2Z.inj_succ, Z.pow_succ_r by lia. ring.
Qed.

Lemma shl_align_spec m e e' :
  e' <= e ->
  Zpos (fst (shl_align m e e')) = Zpos m * 2 ^ (e - e') /\ snd (shl_align m e e') = e'.
Proof.
  intros H. unfold shl_align.
  destruct (e' - e) as [|p|p] eqn:E; simpl fst; simpl snd.
  - replace (e - e') with 0 by lia. split; [ring|lia].
  - lia.
  - rewrite iter_xO_mul. replace (e - e') with (Zpos p) by lia. split; [reflexivity|lia].
Qed.

Lemma shl_align_id m e e' : e <= e' -> shl_align m e e' = (m, e).
Proof.
  intros H. unfold shl_align. destruct (e' - e) as [|p|p] eqn:E; try reflexivity. lia.
Qed.

Lemma binary_round_real s p e :
  Zpos (digits2_pos p) <= 300 -> -600 <= e <= 600 ->
  exists m e2,
    binary_round prec emax s p e = S754_finite s m e2 /\
    Zpos (digits2_pos m) = 53 /\
    e + Zpos (digits2_pos p) - 53 <= e2 <= e + Zpos (digits2_pos p) - 52 /\
    ((1 - u52) * FR p e <= FR m e2 <= (1 + u52) * FR p e)%R.
Proof.
  intros Hd He. unfold binary_round.
  pose proof (digits2_pos_bounds p) as Hb.
  set (d := Zpos (digits2_pos p)) in *.
  assert (Hd1 : 1 <= d) by (unfold d; lia).
  rewrite fexp_normal by lia.
  destruct (Z_lt_le_dec d 53) as [Hlt|Hge].
  - pose proof (shl_align_spec p e (d + e - 53) ltac:(lia)) as [Hm Hez].
    destruct (shl_align p e (d + e - 53)) as [mz ez]. simpl fst in Hm. simpl snd in Hez.
    subst ez. replace (e - (d + e - 53)) with (53 - d) in Hm by lia.
    assert (Hdz : Zpos (digits2_pos mz) = 53).
    { apply digits2_pos_unique. rewrite Hm. change (53 - 1) with 52.
      assert (E52 : 2 ^ 52 = 2 ^ (d - 1) * 2 ^ (53 - d)).
      { rewrite <- pow2_split by lia. f_equal. lia. }
      assert (E53 : 2 ^ 53 = 2 ^ d * 2 ^ (53 - d)).
      { rewrite <- pow2_split by lia. f_equal. lia. }
      rewrite E52, E53.
      assert (0 < 2 ^ (53 - d)) by (apply Z.pow_pos_nonneg; lia). nia. }
    destruct (binary_round_aux_real s mz (d + e - 53) loc_Exact ltac:(lia) ltac:(lia))
      as (m & e2 & Heq & Hdm & He2 & Hv).
    exists m, e2. split; [exact Heq|]. split; [exact Hdm|]. split; [lia|].
    apply Hv. unfold FR. rewrite Hm, mult_IZR, IZR_pow2 by lia.
    assert (Hbe : bpow e = (bpow (53 - d) * bpow (d + e - 53))%R).
    { rewrite <- bpow_add. f_equal. lia. }
    rewrite Hbe.
    pose proof (bpow_pos (53 - d)). pose proof (bpow_pos (d + e - 53)).
    assert (0 < IZR (Zpos p))%R by (apply IZR_lt; lia).
    split; nra.
  - rewrite shl_align_id by lia.
    destruct (binary_round_aux_real s p e loc_Exact ltac:(fold d; lia) ltac:(fold d; lia))
      as (m & e2 & Heq & Hdm & He2 & Hv).
    exists m, e2. split; [exact Heq|]. split; [exact Hdm|]. split; [exact He2|].
    apply Hv. unfold FR. pose proof (bpow_pos e).
    assert (0 < IZR (Zpos p))%R by (apply IZR_lt; lia).
    split; nra.
Qed.

(** Comparison of canonical positive numbers follows their real values. *)
Lemma SFltb_of_real m1 e1 m2 e2 :
  Zpos (digits2_pos m1) = 53 -> Zpos (digits2_pos m2) = 53 ->
  (FR m1 e1 < FR m2 e2)%R ->
  SFltb (S754_finite false m1 e1) (S754_finite false m2 e2) = true.
Proof.
  intros H1 H2 Hlt. apply digits_53_bounds in H1, H2.
  unfold SFltb. cbn [SFcompare].
  change (Pos.compare_cont Eq m1 m2) with (m1 ?= m2)%positive.
  unfold FR in Hlt.
  destruct (Z.compare_spec e1 e2) as [->|He|He].
  - pose proof (bpow_pos e2).
    assert (Hm : (IZR (Zpos m1) < IZR (Zpos m2))%R) by nra.
    apply lt_IZR in Hm. rewrite (proj2 (Pos.compare_lt_iff m1 m2)) by lia. reflexivity.
  - reflexivity.
  - exfalso.
    replace e1 with ((e1 - e2) + e2) in Hlt by lia. rewrite bpow_add in Hlt.
    rewrite <- (IZR_pow2 (e1 - e2)) in Hlt by lia.
    assert (H2' : 2 <= 2 ^ (e1 - e2)).
    { change 2 with (2 ^ 1) at 1. apply Z.pow_le_mono_r; lia. }
    destruct H1 as [H1 _]. destruct H2 as [_ H2].
    change (2 ^ 53) with (2 * 2 ^ 52) in H2.
    apply IZR_le in H1, H2'. apply IZR_lt in H2. rewrite mult_IZR in H2.
    pose proof (bpow_pos e2) as Hb.
    assert (Hc : (0 < IZR (2 ^ 52))%R) by (apply IZR_lt; lia).
    set (A1 := IZR (Zpos m1)) in *. set (A2 := IZR (Zpos m2)) in *.
    set (P := IZR (2 ^ (e1 - e2))) in *. set (c := IZR (2 ^ 52)) in *.
    set (b := bpow e2) in *.
    assert (H3 : (2 * c <= A1 * P)%R) by nra.
    assert (H4 : (A2 * b < A1 * P * b)%R).
    { apply Rmult_lt_compat_r; [exact Hb|]. lra. }
    lra.
Qed.

Lemma SFsub_abs_real mx ex my ey :
  Zpos (digits2_pos mx) = 53 -> Zpos (digits2_pos my) = 53 ->
  -300 <= ex <= 300 -> -300 <= ey <= 300 -> -200 <= ex - ey <= 200 ->
  FR mx ex <> FR my ey ->
  exists m e,
    SFabs (SFsub prec emax (S754_finite false mx ex) (S754_finite false my ey)) =
      S754_finite false m e /\
    Zpos (digits2_pos m) = 53 /\
    ((1 - u52) * Rabs (FR mx ex - FR my ey) <= FR m e
       <= (1 + u52) * Rabs (FR mx ex - FR my ey))%R.
Proof.
  intros Hx Hy Hex Hey Hd Hne.
  apply digits_53_bounds in Hx, Hy.
  cbn [SFsub cond_Zopp].
  set (ez := Z.min ex ey).
  pose proof (shl_align_spec mx ex ez ltac:(unfold ez; lia)) as [Hmx _].
  pose proof (shl_align_spec my ey ez ltac:(unfold ez; lia)) as [Hmy _].
  set (ax := Zpos (fst (shl_align mx ex ez))) in *.
  set (ay := Zpos (fst (shl_align my ey ez))) in *.
  assert (Hvx : FR mx ex = (IZR ax * bpow ez)%R).
  { unfold FR. rewrite Hmx, mult_IZR, IZR_pow2 by (unfold ez; lia).
    rewrite Rmult_assoc, <- bpow_add. do 2 f_equal. lia. }
  assert (Hvy : FR my ey = (IZR ay * bpow ez)%R).
  { unfold FR. rewrite Hmy, mult_IZR, IZR_pow2 by (unfold ez; lia).
    rewrite Rmult_assoc, <- bpow_add. do 2 f_equal. lia. }
  assert (Hax : 0 < ax < 2 ^ 253).
  { rewrite Hmx. split; [apply Z.mul_pos_pos; [lia|apply Z.pow_pos_nonneg; unfold ez; lia]|].
    change (2 ^ 253) with (2 ^ 53 * 2 ^ 200).
    assert (2 ^ (ex - ez) <= 2 ^ 200) by (apply Z.pow_le_mono_r; unfold ez; lia).
    assert (0 < 2 ^ (ex - ez)) by (apply Z.pow_pos_nonneg; unfold ez; lia).
    nia. }
  assert (Hay : 0 < ay < 2 ^ 253).
  { rewrite Hmy. split; [apply Z.mul_pos_pos; [lia|apply Z.pow_pos_nonneg; unfold ez; lia]|].
    change (2 ^ 253) with (2 ^ 53 * 2 ^ 200).
    assert (2 ^ (ey - ez) <= 2 ^ 200) by (apply Z.pow_le_mono_r; unfold ez; lia).
    assert (0 < 2 ^ (ey - ez)) by (apply Z.pow_pos_nonneg; unfold ez; lia).
    nia. }
  assert (Hdiff : (FR mx ex - FR my ey = IZR (ax - ay) * bpow ez)%R).
  { rewrite Hvx, Hvy, minus_IZR. ring. }
  rewrite Hdiff. rewrite Rabs_mult, (Rabs_pos_eq (bpow ez)) by (apply Rlt_le, bpow_pos).
  rewrite <- abs_IZR.
  assert (Hnz : ax - ay <> 0).
  { intros H0. apply Hne. rewrite Hvx, Hvy. f_equal. f_equal. lia. }
  unfold binary_normalize.
  destruct (ax - ay) as [|p|p] eqn:ED; [contradiction Hnz; reflexivity| |].
  - assert (Hp : Zpos (digits2_pos p) <= 300).
    { pose proof (digits2_pos_bounds p) as [B1 _].
      destruct (Z_lt_le_dec 300 (Zpos (digits2_pos p))) as [H|]; [|assumption].
      assert (2 ^ 253 <= 2 ^ (Zpos (digits2_pos p) - 1)) by (apply Z.pow_le_mono_r; lia).
      lia. }
    destruct (binary_round_real false p ez Hp ltac:(unfold ez; lia))
      as (m & e2 & Heq & Hdm & _ & Hv).
    rewrite Heq. cbn [SFabs Z.abs]. exists m, e2. split; [reflexivity|]. split; [exact Hdm|].
    exact Hv.
  - assert (Hp : Zpos (digits2_pos p) <= 300).
    { pose proof (digits2_pos_bounds p) as [B1 _].
      destruct (Z_lt_le_dec 300 (Zpos (digits2_pos p))) as [H|]; [|assumption].
      assert (2 ^ 253 <= 2 ^ (Zpos (digits2_pos p) - 1)) by (apply Z.pow_le_mono_r; lia).
      lia. }
    destruct (binary_round_real true p ez Hp ltac:(unfold ez; lia))
      as (m & e2 & Heq & Hdm & _ & Hv).
    rewrite Heq. cbn [SFabs Z.abs]. exists m, e2. split; [reflexivity|]. split; [exact Hdm|].
    exact Hv.
Qed.

Lemma of_uint63_real z :
  0 < z < 2 ^ 63 ->
  exists m e,
    Prim2SF (of_uint63 (Uint63.of_Z z)) = S754_finite false m e /\
    Zpos (digits2_pos m) = 53 /\
    -52 <= e <= 11 /\
    ((1 - u52) * IZR z <= FR m e <= (1 + u52) * IZR z)%R.
Proof.
  intros Hz. rewrite of_uint63_spec, Uint63.of_Z_spec.
  rewrite Z.mod_small by (change Uint63.wB with (2 ^ 63); lia).
  destruct z as [|p|p]; try lia. cbn [binary_normalize].
  assert (Hp : 0 < Zpos (digits2_pos p) <= 63).
  { split; [lia|]. apply (digits_between p 0 63); [lia|]. simpl (2 ^ 0). lia. }
  destruct (binary_round_real false p 0 ltac:(lia) ltac:(lia))
    as (m & e2 & Heq & Hdm & He2 & Hv).
  exists m, e2. split; [exact Heq|]. split; [exact Hdm|]. split; [lia|].
  assert (Hp0 : FR p 0 = IZR (Zpos p)).
  { unfold FR. change (bpow 0) with 1%R. ring. }
  rewrite Hp0 in Hv. exact Hv.
Qed.

End Rounding.

(** * Real bounds along the computation of one output frequency *)

Section RealBounds.
Local Open Scope R_scope.

Section Chain.
Variables u d w vD v1 v2 vW v3 C : R.
Hypothesis Hu : 0 < u <= 1 / 1000000000000000.
Hypothesis Hd : 1 <= d.
Hypothesis Hw : 1 <= w.
Hypothesis HC : 0 < C.
Hypothesis HD : (1 - u) * d <= vD <= (1 + u) * d.
Hypothesis H1 : (1 - u) * (vD * (1 / 16)) <= v1 <= (1 + u) * (vD * (1 / 16)).
Hypothesis H2 : (1 - u) * (C / v1) <= v2 <= (1 + u) * (C / v1).
Hypothesis HW : (1 - u) * w <= vW <= (1 + u) * w.
Hypothesis H3 : (1 - u) * (v2 / vW) <= v3 <= (1 + u) * (v2 / vW).

Lemma chain_pos : 0 < vD /\ 0 < v1 /\ 0 < v2 /\ 0 < vW /\ 0 < v3.
Proof.
  assert (0 < vD) by nra.
  assert (0 < v1) by nra.
  assert (0 < C / v1) by (apply Rdiv_lt_0_compat; lra).
  assert (0 < v2) by nra.
  assert (0 < vW) by nra.
  assert (0 < v2 / vW) by (apply Rdiv_lt_0_compat; lra).
  assert (0 < v3) by nra.
  repeat split; assumption.
Qed.

Lemma chain_upper : v3 * ((1 - 3 * u) * (d * w)) <= 16 * C * (1 + 3 * u).
Proof.
  destruct chain_pos as (PD & P1 & P2 & PW & P3).
  assert (E1 : C / v1 * v1 = C) by (field; lra).
  assert (E2 : v2 / vW * vW = v2) by (field; lra).
  assert (A1 : v2 * v1 <= (1 + u) * C) by nra.
  assert (A2 : v3 * vW <= (1 + u) * v2) by nra.
  assert (A3 : v3 * vW * v1 <= (1 + u) * ((1 + u) * C)).
  { apply Rle_trans with ((1 + u) * v2 * v1).
    - apply Rmult_le_compat_r; lra.
    - rewrite Rmult_assoc. apply Rmult_le_compat_l; lra. }
  assert (B1 : (1 - u) * ((1 - u) * d) * (1 / 16) <= v1) by nra.
  assert (B2 : (1 - u) * w * ((1 - u) * ((1 - u) * d) * (1 / 16)) <= vW * v1).
  { apply Rmult_le_compat; nra. }
  assert (B3 : v3 * ((1 - u) * w * ((1 - u) * ((1 - u) * d) * (1 / 16))) <= v3 * vW * v1).
  { rewrite (Rmult_assoc v3 vW v1). apply Rmult_le_compat_l; lra. }
  assert (Q0 : 0 <= C * u * (1 - u)) by (apply Rmult_le_pos; [apply Rmult_le_pos|]; lra).
  assert (Q1 : (1 + u) * ((1 + u) * C) <= C * (1 + 3 * u)).
  { replace ((1 + u) * ((1 + u) * C)) with (C * (1 + 3 * u) - C * u * (1 - u)) by ring. lra. }
  assert (Q2 : (1 - 3 * u) <= (1 - u) * ((1 - u) * (1 - u))).
  { assert (0 <= u * u * (3 - u)) by (apply Rmult_le_pos; [apply Rmult_le_pos|]; lra).
    replace ((1 - u) * ((1 - u) * (1 - u))) with (1 - 3 * u + u * u * (3 - u)) by ring. lra. }
  assert (Q3 : v3 * ((1 - 3 * u) * (d * w) * (1 / 16)) <=
               v3 * ((1 - u) * w * ((1 - u) * ((1 - u) * d) * (1 / 16)))).
  { apply Rmult_le_compat_l; [lra|].
    replace ((1 - u) * w * ((1 - u) * ((1 - u) * d) * (1 / 16)))
      with ((1 - u) * ((1 - u) * (1 - u)) * (d * w) * (1 / 16)) by ring.
    apply Rmult_le_compat_r; [lra|]. apply Rmult_le_compat_r; nra. }
  lra.
Qed.

Lemma chain_lower : 16 * C * (1 - 3 * u) <= v3 * ((1 + 4 * u) * (d * w)).
Proof.
  destruct chain_pos as (PD & P1 & P2 & PW & P3).
  assert (E1 : C / v1 * v1 = C) by (field; lra).
  assert (E2 : v2 / vW * vW = v2) by (field; lra).
  assert (A1 : (1 - u) * C <= v2 * v1) by nra.
  assert (A2 : (1 - u) * v2 <= v3 * vW) by nra.
  assert (A3 : (1 - u) * ((1 - u) * C) <= v3 * vW * v1).
  { apply Rle_trans with ((1 - u) * v2 * v1).
    - rewrite Rmult_assoc. apply Rmult_le_compat_l; lra.
    - apply Rmult_le_compat_r; lra. }
  assert (B1 : v1 <= (1 + u) * ((1 + u) * d) * (1 / 16)) by nra.
  assert (B2 : vW * v1 <= (1 + u) * w * ((1 + u) * ((1 + u) * d) * (1 / 16))).
  { apply Rmult_le_compat; nra. }
  assert (B3 : v3 * vW * v1 <= v3 * ((1 + u) * w * ((1 + u) * ((1 + u) * d) * (1 / 16)))).
  { rewrite (Rmult_assoc v3 vW v1). apply Rmult_le_compat_l; lra. }
  assert (Q0 : 0 <= C * u * (1 + u)) by (apply Rmult_le_pos; [apply Rmult_le_pos|]; lra).
  assert (Q1 : C * (1 - 3 * u) <= (1 - u) * ((1 - u) * C)).
  { replace ((1 - u) * ((1 - u) * C)) with (C * (1 - 3 * u) + C * u * (1 + u)) by ring. lra. }
  assert (Q2 : (1 + u) * ((1 + u) * (1 + u)) <= 1 + 4 * u).
  { assert (0 <= u * (1 - 3 * u - u * u)) by (apply Rmult_le_pos; nra).
    replace ((1 + u) * ((1 + u) * (1 + u))) with (1 + 4 * u - u * (1 - 3 * u - u * u)) by ring.
    lra. }
  assert (Q3 : v3 * ((1 + u) * w * ((1 + u) * ((1 + u) * d) * (1 / 16))) <=
               v3 * ((1 + 4 * u) * (d * w) * (1 / 16))).
  { apply Rmult_le_compat_l; [lra|].
    replace ((1 + u) * w * ((1 + u) * ((1 + u) * d) * (1 / 16)))
      with ((1 + u) * ((1 + u) * (1 + u)) * (d * w) * (1 / 16)) by ring.
    apply Rmult_le_compat_r; [lra|]. apply Rmult_le_compat_r; nra. }
  lra.
Qed.
End Chain.

Lemma far_above (u d w v3 : R) :
0 < u <= 1 / 1000000000000000 -> 0 < v3 ->
10181819 <= d * w ->
v3 * ((1 - 3 * u) * (d * w)) <= 16 * 280000000 * (1 + 3 * u) ->
v3 <= 440 - 35 / 1000000.
Proof.
intros Hu Hv Hp H.
assert (H1 : v3 * ((1 - 3 * u) * 10181819) <= v3 * ((1 - 3 * u) * (d * w))).
{ apply Rmult_le_compat_l; [lra|]. apply Rmult_le_compat_l; lra. }
assert (H2 : 16 * 280000000 * (1 + 3 * u) <= (440 - 35 / 1000000) * ((1 - 3 * u) * 10181819)) by lra.
apply Rmult_le_reg_r with (r := ((1 - 3 * u) * 10181819)); [lra|]. lra.
Qed.

Lemma far_below (u d w v3 : R) :
0 < u <= 1 / 1000000000000000 -> 0 < v3 ->
0 < d * w <= 10181817 ->
16 * 280000000 * (1 - 3 * u) <= v3 * ((1 + 4 * u) * (d * w)) ->
440 + 35 / 1000000 <= v3.
Proof.
intros Hu Hv Hp H.
assert (H1 : v3 * ((1 + 4 * u) * (d * w)) <= v3 * ((1 + 4 * u) * 10181817)).
{ apply Rmult_le_compat_l; [lra|]. apply Rmult_le_compat_l; lra. }
assert (H2 : (440 + 35 / 1000000) * ((1 + 4 * u) * 10181817) <= 16 * 280000000 * (1 - 3 * u)) by lra.
apply Rmult_le_reg_r with (r := ((1 + 4 * u) * 10181817)); [lra|]. lra.
Qed.

End RealBounds.

(** * The loop nest is a per-note reduction *)

Lemma top_loop_per_note tops d df fd ns :
  top_loop tops d df fd ns =
  map (fun n =>
         fold_left (fun n t => visit d t df (fd / of_uint32 (u32 (t + 1))) n) tops n)
      ns.
Proof.
  unfold top_loop. revert ns.
  induction tops as [|t tops IH]; intros ns; simpl.
  - symmetry. apply map_id.
  - rewrite IH, map_map. reflexivity.
Qed.

Lemma best_of_app l1 l2 n : best_of (l1 ++ l2) n = best_of l2 (best_of l1 n).
Proof. apply fold_left_app. Qed.

Lemma best_of_row d tops n :
  best_of (map (fun t => (d, t)) tops) n =
  fold_left
    (fun n t => visit d t (divisor d) (freq_after_divider d / of_uint32 (u32 (t + 1))) n)
    tops n.
Proof.
  unfold best_of. revert n.
  induction tops as [|t tops IH]; intros n; simpl; [reflexivity|].
  rewrite IH. reflexivity.
Qed.

Lemma div_loop_per_note divs tops ns :
  div_loop divs tops ns = map (best_of (list_prod divs tops)) ns.
Proof.
  unfold div_loop. revert ns.
  induction divs as [|d divs IH]; intros ns; simpl.
  - symmetry. apply map_id.
  - rewrite IH, top_loop_per_note, map_map.
    apply map_ext. intros n.
    rewrite best_of_app, best_of_row. reflexivity.
Qed.

Lemma search_per_note ns : search ns = map (best_of search_space) ns.
Proof. apply div_loop_per_note. Qed.

(** * Invariants of the reduction for one note *)

Section OneNote.
Import Binary64.

Lemma freq_consider n c : freq (consider n c) = freq n.
Proof. unfold consider. destruct (_ <? _); reflexivity. Qed.

Lemma freq_best_of l n : freq (best_of l n) = freq n.
Proof.
  unfold best_of. revert n. induction l as [|c l IH]; intros n; simpl; [reflexivity|].
  rewrite IH. apply freq_consider.
Qed.

Lemma candidate_error_freq n n' c :
  freq n' = freq n -> candidate_error n' c = candidate_error n c.
Proof. unfold candidate_error. intros ->. reflexivity. Qed.

Lemma taken_freq n n' c : freq n' = freq n -> taken n' c = taken n c.
Proof. unfold taken, candidate_error. intros ->. reflexivity. Qed.

Lemma best_of_snoc l c n : best_of (l ++ [c]) n = consider (best_of l n) c.
Proof. rewrite best_of_app. reflexivity. Qed.

(** The result is the untouched note or some pair of the list, taken
    because its error was below the initial one. *)
Lemma best_of_origin l n :
  best_of l n = n \/
  exists c, In c l /\ best_of l n = taken n c /\ (candidate_error n c <? err n) = true.
Proof.
  induction l as [|c l IH] using rev_ind; [left; reflexivity|].
  rewrite best_of_snoc. unfold consider.
  rewrite (candidate_error_freq n (best_of l n) c (freq_best_of l n)).
  rewrite (taken_freq n (best_of l n) c (freq_best_of l n)).
  destruct (candidate_error n c <? err (best_of l n)) eqn:E.
  - right. exists c. split; [apply in_or_app; right; left; reflexivity|].
    split; [reflexivity|].
    destruct IH as [IH|(c' & Hin & IH & Hlt)]; rewrite IH in E; [exact E|].
    exact (ltb_trans _ _ _ E Hlt).
  - destruct IH as [IH|(c' & Hin & IH & Hlt)]; [left; exact IH|].
    right. exists c'. split; [apply in_or_app; left; exact Hin|]. split; assumption.
Qed.

(** No pair of the list has an error below the retained one. *)
Lemma best_of_minimal l n c :
  In c l -> (candidate_error n c <? err (best_of l n)) = false.
Proof.
  revert c. induction l as [|c0 l IH] using rev_ind; intros c Hin; [destruct Hin|].
  rewrite best_of_snoc. unfold consider.
  rewrite (candidate_error_freq n (best_of l n) c0 (freq_best_of l n)).
  destruct (candidate_error n c0 <? err (best_of l n)) eqn:E; simpl.
  - rewrite (candidate_error_freq n (best_of l n) c0 (freq_best_of l n)).
    apply in_app_or in Hin. destruct Hin as [Hin|[<-|[]]].
    + specialize (IH c Hin).
      destruct (candidate_error n c <? candidate_error n c0) eqn:E'; [|reflexivity].
      rewrite (ltb_trans _ _ _ E' E) in IH. discriminate.
    + apply ltb_irrefl.
  - apply in_app_or in Hin. destruct Hin as [Hin|[<-|[]]]; [apply IH; exact Hin|exact E].
Qed.

(** Among pairs of equal error the first one met is retained. *)
Lemma best_of_first l n :
  best_of l n = n \/
  exists l1 c l2,
    l = l1 ++ c :: l2 /\ best_of l n = taken n c /\
    (candidate_error n c <? err n) = true /\
    (forall c', In c' l1 -> (candidate_error n c' <=? candidate_error n c) = false) /\
    (forall c', In c' l2 -> (candidate_error n c' <? candidate_error n c) = false).
Proof.
  induction l as [|c l IH] using rev_ind; [left; reflexivity|].
  rewrite best_of_snoc. unfold consider.
  rewrite (candidate_error_freq n (best_of l n) c (freq_best_of l n)).
  rewrite (taken_freq n (best_of l n) c (freq_best_of l n)).
  destruct (candidate_error n c <? err (best_of l n)) eqn:E.
  - right. exists l, c, []. split; [reflexivity|]. split; [reflexivity|].
    split; [|split].
    + destruct (best_of_origin l n) as [H|(c' & _ & H & Hlt)]; rewrite H in E;
        [exact E|exact (ltb_trans _ _ _ E Hlt)].
    + intros c' Hin.
      destruct (candidate_error n c' <=? candidate_error n c) eqn:E'; [|reflexivity].
      pose proof (leb_ltb_trans _ _ _ E' E) as H.
      rewrite (best_of_minimal l n c' Hin) in H. discriminate.
    + intros c' [].
  - destruct IH as [IH|(l1 & c0 & l2 & -> & IH & Hlt & H1 & H2)]; [left; exact IH|].
    right. exists l1, c0, (l2 ++ [c]).
    split; [rewrite <- app_assoc; reflexivity|]. split; [exact IH|].
    split; [exact Hlt|]. split; [exact H1|].
    intros c' Hin. apply in_app_or in Hin. destruct Hin as [Hin|[<-|[]]].
    + apply H2; exact Hin.
    + rewrite IH in E. exact E.
Qed.

End OneNote.

(** * The search space and the notes table *)

Lemma in_uint_range lo hi z :
  (0 <= lo)%Z -> In z (uint_range lo hi) <-> (lo <= z < hi)%Z.
Proof.
  intros Hlo. unfold uint_range. rewrite in_map_iff. split.
  - intros (k & <- & Hk). apply in_seq in Hk. lia.
  - intros Hz. exists (Z.to_nat z). split; [lia|]. apply in_seq. lia.
Qed.

Lemma in_DIVS d : In d DIVS <-> (16 <= d <= 4095)%Z.
Proof.
  unfold DIVS. rewrite in_uint_range by lia.
  change (2 ^ 4)%Z with 16%Z. change (2 ^ 12)%Z with 4096%Z. lia.
Qed.

Lemma in_TOPS t : In t TOPS <-> (0 <= t <= 65535)%Z.
Proof. unfold TOPS. rewrite in_uint_range by lia. lia. Qed.

Lemma in_search_space d t :
  In (d, t) search_space <-> (16 <= d <= 4095 /\ 0 <= t <= 65535)%Z.
Proof.
  unfold search_space. rewrite in_prod_iff, in_DIVS, in_TOPS. reflexivity.
Qed.

Lemma uint_range_split lo mid hi :
  (0 <= lo <= mid)%Z -> (mid < hi)%Z ->
  uint_range lo hi = uint_range lo mid ++ mid :: uint_range (mid + 1) hi.
Proof.
  intros H1 H2. unfold uint_range.
  replace (Z.to_nat (hi - lo)) with (Z.to_nat (mid - lo) + S (Z.to_nat (hi - (mid + 1))))%nat by lia.
  rewrite seq_app, map_app. f_equal.
  replace (Z.to_nat lo + Z.to_nat (mid - lo))%nat with (Z.to_nat mid) by lia.
  cbn [seq map]. f_equal; [lia|].
  replace (S (Z.to_nat mid)) with (Z.to_nat (mid + 1)) by lia. reflexivity.
Qed.

Lemma not_in_uint_range lo hi z :
  (0 <= lo)%Z -> (z < lo \/ hi <= z)%Z -> ~ In z (uint_range lo hi).
Proof. intros Hlo Hz Hin. apply in_uint_range in Hin; lia. Qed.

Lemma DIVS_split mid :
  (16 <= mid <= 4095)%Z ->
  DIVS = uint_range 16 mid ++ mid :: uint_range (mid + 1) 4096.
Proof.
  intros H. unfold DIVS.
  change (2 ^ 4)%Z with 16%Z. change (2 ^ 12)%Z with 4096%Z.
  apply uint_range_split; lia.
Qed.

Lemma TOPS_split mid :
  (0 <= mid <= 65535)%Z ->
  TOPS = uint_range 0 mid ++ mid :: uint_range (mid + 1) 65536.
Proof.
  intros H. unfold TOPS.
  apply uint_range_split; lia.
Qed.

Lemma search_space_unfold : search_space = list_prod DIVS TOPS.
Proof. reflexivity. Qed.

Global Opaque DIVS TOPS search_space.

Lemma u32_small z : (0 <= z < 2 ^ 32)%Z -> u32 z = z.
Proof. apply Z.mod_small. Qed.

Section Table.
Variable pow : float -> float -> float.

Lemma nth_error_init_loop z ns i :
  nth_error (init_loop pow z ns) i =
  option_map (init_note pow (z + Z.of_nat i)) (nth_error ns i).
Proof.
  revert z i. induction ns as [|n ns IH]; intros z i; simpl.
  - destruct i; reflexivity.
  - destruct i as [|i]; simpl.
    + rewrite Z.add_0_r. reflexivity.
    + rewrite IH. f_equal. f_equal. lia.
Qed.


Lemma nth_error_init_notes i :
  (i < 60)%nat -> nth_error (init_notes pow) i = Some (start_note pow i).
Proof.
  intros Hi. unfold init_notes, notes_static.
  rewrite nth_error_init_loop.
  rewrite (nth_error_repeat zero_note (m := Z.to_nat NOTE_CNT) (n := i)) by exact Hi.
  reflexivity.
Qed.

Lemma length_init_loop z ns : List.length (init_loop pow z ns) = List.length ns.
Proof.
  revert z. induction ns as [|n ns IH]; intros z; simpl; [reflexivity|].
  rewrite IH. reflexivity.
Qed.

Lemma length_final_notes : List.length (final_notes pow) = 60%nat.
Proof.
  unfold final_notes. rewrite search_per_note, length_map.
  unfold init_notes, notes_static. rewrite length_init_loop, repeat_length.
  reflexivity.
Qed.

(** [notes[i]] when the search is over. *)
Lemma nth_error_final_notes i :
  (i < 60)%nat ->
  nth_error (final_notes pow) i = Some (best_of search_space (start_note pow i)).
Proof.
  intros Hi. unfold final_notes.
  rewrite search_per_note, nth_error_map, nth_error_init_notes by exact Hi.
  reflexivity.
Qed.

End Table.

(** * The reference values of [pow]

    Every [equal_tempered i] is a binary64 number nearest to the real number
    2^((i - 24)/12), and the sample [pow] is accurate to one unit in the last
    place. *)

Lemma equal_tempered_nearest :
  forallb (fun i => nearest_to_root (Z.of_nat i - 24) (equal_tempered i)) note_indices = true.
Proof. vm_compute. reflexivity. Qed.

(** * Consequences of the accuracy of [pow] *)

Section Accurate.
Import Binary64.
Variable pow : float -> float -> float.
Hypothesis pow_ok : pow_accurate pow.

Lemma pow_accurate_at i :
  (i < 60)%nat ->
  In (pow 2 (semitone (Z.of_nat i))) (neighbours (equal_tempered i)).
Proof.
  intros Hi. unfold pow_accurate in pow_ok.
  rewrite forallb_forall in pow_ok.
  assert (Hin : In i note_indices) by (apply in_seq; change (Z.to_nat NOTE_CNT) with 60%nat; lia).
  specialize (pow_ok i Hin). unfold within_one_ulp in pow_ok.
  apply existsb_exists in pow_ok. destruct pow_ok as (t & Ht & Heq).
  apply Leibniz.eqb_spec in Heq. subst t. exact Ht.
Qed.

(** The pair evaluated first, (div, top) = (16, 0), already beats the
    initial error 9999999999, whichever neighbour [pow] returned. *)
Lemma first_pair_check :
  forallb
    (fun i =>
       forallb (fun p => abs (440 * p - output_frequency 16 0) <? 9999999999)
         (neighbours (equal_tempered i)))
    note_indices = true.
Proof. vm_compute. reflexivity. Qed.

Lemma first_pair_below i :
  (i < 60)%nat ->
  (candidate_error (start_note pow i) (16, 0)%Z <? err (start_note pow i)) = true.
Proof.
  intros Hi. pose proof (pow_accurate_at i Hi) as Hin.
  pose proof first_pair_check as Hc.
  rewrite forallb_forall in Hc.
  assert (Hi' : In i note_indices) by (apply in_seq; change (Z.to_nat NOTE_CNT) with 60%nat; lia).
  specialize (Hc i Hi'). rewrite forallb_forall in Hc.
  exact (Hc _ Hin).
Qed.

(** Hence every note ends on a pair of the search space. *)
Lemma final_note_taken i :
  (i < 60)%nat ->
  exists c,
    In c search_space /\
    best_of search_space (start_note pow i) = taken (start_note pow i) c.
Proof.
  intros Hi.
  destruct (best_of_origin search_space (start_note pow i)) as [H|(c & Hin & H & _)].
  - pose proof (first_pair_below i Hi) as Hlt.
    assert (Hin : In (16, 0)%Z search_space) by (apply in_search_space; lia).
    pose proof (best_of_minimal search_space (start_note pow i) _ Hin) as Hmin.
    rewrite H in Hmin. rewrite Hmin in Hlt. discriminate.
  - exists c. split; assumption.
Qed.

End Accurate.

(** * The claims *)

Lemma candidate_nonneg c :
  sf_nonneg (Prim2SF (output_frequency (fst c) (snd c))) = true.
Proof.
  unfold output_frequency, freq_after_divider, divisor, of_uint32.
  rewrite !div_spec, mul_spec.
  apply Binary64.SFdiv_nonneg; [apply Binary64.SFdiv_nonneg|].
  - unfold of_int. change (SYS_FREQ_HZ <? 0)%Z with false. apply Binary64.of_uint63_nonneg.
  - apply Binary64.SFmul_nonneg; [apply Binary64.of_uint63_nonneg|].
    vm_compute. reflexivity.
  - apply Binary64.of_uint63_nonneg.
Qed.

(** No pair of the search yields the sentinel -1 as output frequency. *)
Lemma candidate_not_sentinel c :
  (output_frequency (fst c) (snd c) =? -1) = false.
Proof.
  rewrite FloatAxioms.eqb_spec.
  apply Binary64.nonneg_not_minus_one, candidate_nonneg.
Qed.



(** C3.  The best-fields of a note change only when the error of the pair at
    hand is strictly below [err]; on a tie they are kept, so among pairs of
    equal error the first one met wins: the retained pair [c] splits the
    sequence walked into pairs before it, none with an error below or equal to
    its own, and pairs after it, none with an error strictly below. *)
Theorem strict_improvement_only :
  (forall d t df o n, (abs (freq n - o) <? err n) = false -> visit d t df o n = n) /\
  (forall d t df o n, abs (freq n - o) = err n -> visit d t df o n = n) /\
  (forall d t df o n, visit d t df o n <> n -> (abs (freq n - o) <? err n) = true) /\
  (forall l n,
     best_of l n = n \/
     exists l1 c l2,
       l = l1 ++ c :: l2 /\ best_of l n = taken n c /\
       (candidate_error n c <? err n) = true /\
       (forall c', In c' l1 -> (candidate_error n c' <=? candidate_error n c) = false) /\
       (forall c', In c' l2 -> (candidate_error n c' <? candidate_error n c) = false)).
Proof.
  split; [|split; [|split]].
  - intros d t df o n H. unfold visit. rewrite H. reflexivity.
  - intros d t df o n H. unfold visit. rewrite H, Binary64.ltb_irrefl. reflexivity.
  - intros d t df o n H. unfold visit in H.
    destruct (abs (freq n - o) <? err n); [reflexivity|]. contradiction H. reflexivity.
  - apply best_of_first.
Qed.

(** C6.  Every (divider raw, wrap) pair recorded when the search is over lies
    within bounds: raw in [16, 4095] and wrap in [0, 65535].  [pow] is assumed
    accurate to one unit in the last place. *)
Theorem results_within_bounds (pow : float -> float -> float) :
  pow_accurate pow ->
  forall i, (i < 60)%nat ->
  exists n,
    nth_error (final_notes pow) i = Some n /\
    (16 <= div n <= 4095)%Z /\ (0 <= top n <= 65535)%Z.
Proof.
  intros Hpow i Hi.
  exists (best_of search_space (start_note pow i)).
  split; [apply nth_error_final_notes; exact Hi|].
  destruct (final_note_taken pow Hpow i Hi) as ([d t] & Hc & ->).
  apply in_search_space in Hc. exact Hc.
Qed.

Lemma results_within_bounds_witness :
  exists n,
    nth_error (final_notes pow_sample) 59 = Some n /\
    (16 <= div n <= 4095)%Z /\ (0 <= top n <= 65535)%Z.
Proof.
  apply (results_within_bounds pow_sample).
  - vm_compute. reflexivity.
  - lia.
Defined.

(** C8.  The no-candidate case cannot occur: the pair evaluated first,
    (16, 0), has an error below the initial 9999999999, so when the search is
    over no note has [out_freq == -1], and the report prints the configuration
    line, never the "no config" line.  [pow] is assumed accurate to one unit in
    the last place. *)
Theorem no_config_unreachable (pow : float -> float -> float)
    (fmt_lf : nat -> nat -> float -> string) :
  pow_accurate pow ->
  forall i, (i < 60)%nat ->
  exists n,
    nth_error (final_notes pow) i = Some n /\
    (abs (note_freq pow (Z.of_nat i) - output_frequency 16 0) <? 9999999999) = true /\
    (out_freq n =? -1) = false /\
    report_line fmt_lf (Z.of_nat i) n = config_line fmt_lf (Z.of_nat i) n.
Proof.
  intros Hpow i Hi.
  exists (best_of search_space (start_note pow i)).
  split; [apply nth_error_final_notes; exact Hi|].
  split; [exact (first_pair_below pow Hpow i Hi)|].
  assert (H : (out_freq (best_of search_space (start_note pow i)) =? -1) = false).
  { destruct (final_note_taken pow Hpow i Hi) as (c & _ & ->).
    apply candidate_not_sentinel. }
  split; [exact H|].
  unfold report_line. rewrite H. reflexivity.
Qed.

Lemma no_config_unreachable_witness :
  exists n,
    nth_error (final_notes pow_sample) 0 = Some n /\
    (abs (note_freq pow_sample (Z.of_nat 0) - output_frequency 16 0) <? 9999999999) = true /\
    (out_freq n =? -1) = false /\
    report_line (fun _ _ _ => EmptyString) (Z.of_nat 0) n =
    config_line (fun _ _ _ => EmptyString) (Z.of_nat 0) n.
Proof.
  apply (no_config_unreachable pow_sample (fun _ _ _ => EmptyString)).
  - vm_compute. reflexivity.
  - lia.
Defined.

(** C5.  For every index i in 0..59 the target frequency of note i is
    [440 * pow(2, (i + 45 - 69) / 12.)], set by the initialisation and left
    untouched by the search; note 24 has target exactly 440.0, [pow(2, 0)]
    being 1 (as the C standard requires of [pow]). *)
Theorem target_frequency_formula (pow : float -> float -> float) :
  pow 2 0 = 1 ->
  (forall i, (i < 60)%nat ->
     exists n0 n,
       nth_error (init_notes pow) i = Some n0 /\
       nth_error (final_notes pow) i = Some n /\
       freq n0 = 440 * pow 2 (of_int (Z.of_nat i + 45 - 69) / 12) /\
       freq n = freq n0) /\
  (exists n, nth_error (final_notes pow) 24 = Some n /\ freq n = 440).
Proof.
  intros Hpow. split.
  - intros i Hi.
    exists (start_note pow i), (best_of search_space (start_note pow i)).
    split; [apply nth_error_init_notes; exact Hi|].
    split; [apply nth_error_final_notes; exact Hi|].
    split; [reflexivity|apply freq_best_of].
  - exists (best_of search_space (start_note pow 24)).
    split; [apply nth_error_final_notes; lia|].
    rewrite freq_best_of.
    change (freq (start_note pow 24)) with (440 * pow 2 0).
    rewrite Hpow. reflexivity.
Qed.

Lemma target_frequency_formula_witness :
  (forall i, (i < 60)%nat ->
     exists n0 n,
       nth_error (init_notes pow_sample) i = Some n0 /\
       nth_error (final_notes pow_sample) i = Some n /\
       freq n0 = 440 * pow_sample 2 (of_int (Z.of_nat i + 45 - 69) / 12) /\
       freq n = freq n0) /\
  (exists n, nth_error (final_notes pow_sample) 24 = Some n /\ freq n = 440).
Proof.
  apply (target_frequency_formula pow_sample).
  vm_compute. reflexivity.
Defined.

Lemma consecutive_targets_check :
  forallb
    (fun i =>
       forallb
         (fun p =>
            forallb (fun q => 440 * p <? 440 * q) (neighbours (equal_tempered (S i))))
         (neighbours (equal_tempered i)))
    (seq 0 59) = true.
Proof. vm_compute. reflexivity. Qed.

Lemma consecutive_targets (pow : float -> float -> float) i :
  pow_accurate pow -> (S i < 60)%nat ->
  (note_freq pow (Z.of_nat i) <? note_freq pow (Z.of_nat (S i))) = true.
Proof.
  intros Hpow Hi.
  pose proof (pow_accurate_at pow Hpow i ltac:(lia)) as Hp.
  pose proof (pow_accurate_at pow Hpow (S i) Hi) as Hq.
  pose proof consecutive_targets_check as Hc.
  rewrite forallb_forall in Hc.
  specialize (Hc i ltac:(apply in_seq; lia)).
  rewrite forallb_forall in Hc. specialize (Hc _ Hp).
  rewrite forallb_forall in Hc. exact (Hc _ Hq).
Qed.

(** C10.  The target frequencies increase strictly with the note index: for
    i < j in 0..59, [freq] of note i is below [freq] of note j.  [pow] is
    assumed accurate to one unit in the last place. *)
Theorem targets_strictly_increasing (pow : float -> float -> float) :
  pow_accurate pow ->
  forall i j, (i < j < 60)%nat ->
  exists ni nj,
    nth_error (final_notes pow) i = Some ni /\
    nth_error (final_notes pow) j = Some nj /\
    (freq ni <? freq nj) = true.
Proof.
  intros Hpow i j [Hij Hj].
  exists (best_of search_space (start_note pow i)), (best_of search_space (start_note pow j)).
  split; [apply nth_error_final_notes; lia|].
  split; [apply nth_error_final_notes; lia|].
  rewrite !freq_best_of.
  change (freq (start_note pow i)) with (note_freq pow (Z.of_nat i)).
  change (freq (start_note pow j)) with (note_freq pow (Z.of_nat j)).
  induction j as [|j IH]; [lia|].
  destruct (Nat.eq_dec i j) as [->|Hne].
  - apply consecutive_targets; assumption.
  - apply Binary64.ltb_trans with (y := note_freq pow (Z.of_nat j)).
    + apply IH; lia.
    + apply consecutive_targets; assumption.
Qed.

Lemma targets_strictly_increasing_witness :
  exists ni nj,
    nth_error (final_notes pow_sample) 3 = Some ni /\
    nth_error (final_notes pow_sample) 41 = Some nj /\
    (freq ni <? freq nj) = true.
Proof.
  apply (targets_strictly_increasing pow_sample).
  - vm_compute. reflexivity.
  - lia.
Defined.

Lemma divisor_check :
  forallb (fun raw => Leibniz.eqb (of_uint32 raw * 0.0625) (of_uint32 raw / 16)) DIVS = true.
Proof. vm_compute. reflexivity. Qed.

(** C4.  The loop nest evaluates, for every pair (raw, w) of the search space
    and every note, the output frequency
    [clock_frequency / (raw * 0.0625) / (w + 1)] with clock_frequency =
    280000000: the search is the reduction, note by note, of the pairs with
    that frequency; [raw * 0.0625] is [raw / 16]; and a note holding a pair
    holds the divisor and the output frequency of that pair. *)
Theorem candidate_frequency_formula :
  (forall ns, search ns = map (best_of search_space) ns) /\
  (forall n raw w,
     consider n (raw, w) =
     visit raw w (divisor raw) (output_frequency raw w) n) /\
  (forall raw w, (0 <= w <= 65535)%Z ->
     output_frequency raw w =
     280000000 / (of_uint32 raw * 0.0625) / of_uint32 (w + 1)) /\
  (forall raw, (16 <= raw <= 4095)%Z ->
     divisor raw = of_uint32 raw / 16) /\
  (forall l n,
     best_of l n = n \/
     (In (div (best_of l n), top (best_of l n)) l /\
      divf (best_of l n) = divisor (div (best_of l n)) /\
      out_freq (best_of l n) =
      output_frequency (div (best_of l n)) (top (best_of l n)))).
Proof.
  split; [exact search_per_note|].
  split; [reflexivity|].
  split; [|split].
  - intros raw w Hw. unfold output_frequency, freq_after_divider, divisor.
    rewrite u32_small by lia. reflexivity.
  - intros raw Hraw.
    assert (Hin : In raw DIVS) by (apply in_DIVS; lia).
    pose proof divisor_check as Hc. rewrite forallb_forall in Hc.
    apply Leibniz.eqb_spec. exact (Hc raw Hin).
  - intros l n.
    destruct (best_of_origin l n) as [H|([d t] & Hin & H & _)]; [left; exact H|].
    right. rewrite H. simpl. repeat split. exact Hin.
Qed.

(** * Output *)

Lemma string_app_assoc (a b c : string) : ((a ++ b) ++ c = a ++ (b ++ c))%string.
Proof. induction a as [|ch a IH]; simpl; [reflexivity|]. rewrite IH. reflexivity. Qed.

Lemma string_app_nil_r (a : string) : (a ++ "" = a)%string.
Proof. induction a as [|ch a IH]; simpl; [reflexivity|]. rewrite IH. reflexivity. Qed.

Lemma parse_fmt_u z : (0 <= z)%Z -> parse_u (fmt_u z) = Some z.
Proof.
  intros Hz. unfold parse_u, fmt_u.
  rewrite NilZero.usu.
  - simpl. rewrite DecimalN.Unsigned.of_to. f_equal. lia.
  - destruct (Z.to_N z) as [|p]; [discriminate|].
    apply DecimalPos.Unsigned.to_uint_nonnil.
Qed.

Lemma parse_fmt_x z : (0 <= z)%Z -> parse_0x ("0x" ++ fmt_x z) = z.
Proof.
  intros Hz. unfold parse_0x.
  replace ("0x" ++ fmt_x z)%string with (HexString.of_N (Z.to_N z)).
  - rewrite HexString.to_N_of_N. lia.
  - unfold fmt_x. destruct (Z.to_N z); reflexivity.
Qed.

Section Reporting.
Variable pow : float -> float -> float.
Variable fmt_lf : nat -> nat -> float -> string.

Lemma report_loop_split ns : forall i n z,
  nth_error ns i = Some n ->
  report_loop fmt_lf z ns =
  (report_loop fmt_lf z (firstn i ns) ++
   report_line fmt_lf (z + Z.of_nat i) n ++
   report_loop fmt_lf (z + Z.of_nat i + 1) (skipn (S i) ns))%string.
Proof.
  induction ns as [|m ns IH]; intros i n z Hn.
  - destruct i; discriminate.
  - destruct i as [|i].
    + injection Hn as ->. simpl. rewrite Z.add_0_r. reflexivity.
    + simpl in Hn. cbn [firstn skipn report_loop].
      rewrite (IH i n (z + 1)%Z Hn), string_app_assoc.
      replace (z + 1 + Z.of_nat i)%Z with (z + Z.of_nat (S i))%Z by lia.
      reflexivity.
Qed.

End Reporting.

(** C7.  During reporting, a note whose [out_freq] still equals the sentinel
    -1 gets the line "<index>: no config", which names its index, and the loop
    goes on with the notes that follow; the run is not aborted: [main] goes on
    to print the table and returns 0. *)
Theorem unresolved_notes_reported (pow : float -> float -> float)
    (fmt_lf : nat -> nat -> float -> string) (ns : list note) (i : nat) (n : note) :
  nth_error ns i = Some n ->
  (out_freq n =? -1) = true ->
  report_loop fmt_lf 0 ns =
    (report_loop fmt_lf 0 (firstn i ns) ++
     (fmt_u (Z.of_nat i) ++ ": no config" ++ nl) ++
     report_loop fmt_lf (Z.of_nat i + 1) (skipn (S i) ns))%string /\
  parse_u (fmt_u (Z.of_nat i)) = Some (Z.of_nat i) /\
  (exists progress,
     fst (main pow fmt_lf) =
     (progress ++ report_loop fmt_lf 0 (final_notes pow) ++
      table_block (final_notes pow))%string) /\
  snd (main pow fmt_lf) = 0%Z.
Proof.
  intros Hn Hs. split; [|split; [|split]].
  - rewrite (report_loop_split fmt_lf ns i n 0 Hn).
    unfold report_line. rewrite Hs. reflexivity.
  - apply parse_fmt_u. lia.
  - exists (String.concat "" (map (progress_line fmt_lf) DIVS) ++
            cr ++ "             " ++ nl)%string.
    unfold main. cbn [fst]. rewrite !string_app_assoc. reflexivity.
  - reflexivity.
Qed.

Lemma unresolved_notes_reported_witness :
  report_loop (fun _ _ _ => EmptyString) 0 (init_notes pow_sample) =
    (report_loop (fun _ _ _ => EmptyString) 0 (firstn 7 (init_notes pow_sample)) ++
     (fmt_u (Z.of_nat 7) ++ ": no config" ++ nl) ++
     report_loop (fun _ _ _ => EmptyString) (Z.of_nat 7 + 1)
       (skipn 8 (init_notes pow_sample)))%string /\
  parse_u (fmt_u (Z.of_nat 7)) = Some (Z.of_nat 7) /\
  (exists progress,
     fst (main pow_sample (fun _ _ _ => EmptyString)) =
     (progress ++ report_loop (fun _ _ _ => EmptyString) 0 (final_notes pow_sample) ++
      table_block (final_notes pow_sample))%string) /\
  snd (main pow_sample (fun _ _ _ => EmptyString)) = 0%Z.
Proof.
  apply (unresolved_notes_reported pow_sample (fun _ _ _ => EmptyString)
           (init_notes pow_sample) 7 (start_note pow_sample 7)).
  - vm_compute. reflexivity.
  - vm_compute. reflexivity.
Defined.

Lemma table_loop_layout (ps : list string) :
  List.length ps = 60%nat -> table_loop 0 ps = table_layout ps.
Proof.
  intros H.
  do 60 (destruct ps as [|? ps]; [discriminate H|]).
  destruct ps; [|discriminate H]. clear H.
  unfold table_layout.
  cbn [List.length rows_of firstn skipn map String.concat table_loop].
  unfold table_separator. simpl.
  repeat (rewrite string_app_assoc; simpl).
  rewrite !string_app_nil_r.
  reflexivity.
Qed.

Lemma rows_of_sixty (ps : list string) :
  List.length ps = 60%nat ->
  map (@List.length string) (rows_of 60 7 ps) = [7; 7; 7; 7; 7; 7; 7; 7; 4]%nat.
Proof.
  intros H.
  do 60 (destruct ps as [|? ps]; [discriminate H|]).
  destruct ps; [|discriminate H]. reflexivity.
Qed.

(** The header is the comment line of line 90. *)
Lemma table_header_text (rest : string) :
  (table_header ++ rest =
   "# This table is generated using genfreqs.c" ++ nl ++ rest)%string.
Proof. reflexivity. Qed.

(** The registers a note holds are never negative: zero from static storage
    or a pair of the search space. *)
Lemma final_registers_nonneg (pow : float -> float -> float) i :
  (0 <= div (best_of search_space (start_note pow i)))%Z /\
  (0 <= top (best_of search_space (start_note pow i)))%Z.
Proof.
  destruct (best_of_origin search_space (start_note pow i)) as [->|([d t] & Hin & -> & _)].
  - simpl. lia.
  - apply in_search_space in Hin. simpl. lia.
Qed.

(** C9.  The second output block is the one-line comment
    "# This table is generated using genfreqs.c", then [pwm_cfgs = [] and one
    pair [(0x<div>,0x<top>)] per note, sixty pairs in note index order,
    separated by commas, in rows of seven (eight rows of 7 and one of 4) with a
    line break between rows and none after the last pair; every pair is made
    of two hexadecimal numbers that read back as the note's [div] and [top]. *)
Theorem table_emission (pow : float -> float -> float) :
  table_block (final_notes pow) =
    ("# This table is generated using genfreqs.c" ++ nl ++ nl ++ "pwm_cfgs = [" ++
     table_layout (map table_pair (final_notes pow)) ++ "]" ++ nl)%string /\
  List.length (map table_pair (final_notes pow)) = 60%nat /\
  map (@List.length string) (rows_of 60 7 (map table_pair (final_notes pow))) =
    [7; 7; 7; 7; 7; 7; 7; 7; 4]%nat /\
  (forall i, (i < 60)%nat ->
     exists n,
       nth_error (final_notes pow) i = Some n /\
       nth_error (map table_pair (final_notes pow)) i =
         Some ("(0x" ++ fmt_x (div n) ++ ",0x" ++ fmt_x (top n) ++ ")")%string /\
       parse_0x ("0x" ++ fmt_x (div n)) = div n /\
       parse_0x ("0x" ++ fmt_x (top n)) = top n).
Proof.
  assert (Hlen : List.length (map table_pair (final_notes pow)) = 60%nat)
    by (rewrite length_map; apply length_final_notes).
  split; [|split; [|split]].
  - unfold table_block. rewrite (table_loop_layout _ Hlen). apply table_header_text.
  - exact Hlen.
  - apply rows_of_sixty. exact Hlen.
  - intros i Hi. exists (best_of search_space (start_note pow i)).
    pose proof (nth_error_final_notes pow i Hi) as Hn.
    destruct (final_registers_nonneg pow i) as [Hd Ht].
    split; [exact Hn|].
    split; [rewrite nth_error_map, Hn; reflexivity|].
    split; apply parse_fmt_x; assumption.
Qed.

(** * Order of evaluation *)

Section Order.
Import Binary64.

(** The retained error does not depend on the order of the pairs. *)
Lemma best_error_permutation l l' n :
  Permutation l l' -> err (best_of l n) = err (best_of l' n).
Proof.
  intros Hp.
  destruct (best_of_origin l n) as [H|(c & Hin & H & Hlt)];
    destruct (best_of_origin l' n) as [H'|(c' & Hin' & H' & Hlt')].
  - rewrite H, H'. reflexivity.
  - apply (Permutation_in _ (Permutation_sym Hp)) in Hin'.
    pose proof (best_of_minimal l n c' Hin') as Hm.
    rewrite H, Hlt' in Hm. discriminate.
  - apply (Permutation_in _ Hp) in Hin.
    pose proof (best_of_minimal l' n c Hin) as Hm.
    rewrite H', Hlt in Hm. discriminate.
  - pose proof (best_of_minimal l n c' (Permutation_in _ (Permutation_sym Hp) Hin')) as Hm.
    pose proof (best_of_minimal l' n c (Permutation_in _ Hp Hin)) as Hm'.
    rewrite H in Hm. rewrite H' in Hm'. rewrite H, H'. simpl in *.
    unfold candidate_error in *.
    symmetry. eapply abs_antisym; eassumption.
Qed.

End Order.

(** When a single pair reaches the retained error, the whole record is the
    same in every order. *)
Lemma best_of_permutation_unique (l l' : list (Z * Z)) (n : note) :
  Permutation l l' ->
  (forall c c', In c l -> In c' l ->
     candidate_error n c = err (best_of l n) ->
     candidate_error n c' = err (best_of l n) -> c = c') ->
  best_of l' n = best_of l n.
Proof.
  intros Hp Huniq. pose proof (best_error_permutation l l' n Hp) as He.
  destruct (best_of_origin l n) as [H|(c & Hin & H & Hlt)];
    destruct (best_of_origin l' n) as [H'|(c' & Hin' & H' & Hlt')].
  - rewrite H, H'. reflexivity.
  - apply (Permutation_in _ (Permutation_sym Hp)) in Hin'.
    pose proof (best_of_minimal l n c' Hin') as Hm.
    rewrite H, Hlt' in Hm. discriminate.
  - apply (Permutation_in _ Hp) in Hin.
    pose proof (best_of_minimal l' n c Hin) as Hm.
    rewrite H', Hlt in Hm. discriminate.
  - assert (Hc : c = c').
    { apply Huniq; [exact Hin|exact (Permutation_in _ (Permutation_sym Hp) Hin')| |].
      - rewrite H. reflexivity.
      - rewrite He, H'. reflexivity. }
    rewrite H, H', Hc. reflexivity.
Qed.

Lemma list_prod_permutation_l {A B : Type} (l l' : list A) (t : list B) :
  Permutation l l' -> Permutation (list_prod l t) (list_prod l' t).
Proof.
  induction 1 as [|x l l' _ IH|x y l|l l' l'' _ IH1 _ IH2]; cbn [list_prod].
  - apply Permutation_refl.
  - apply Permutation_app_head. exact IH.
  - rewrite !app_assoc. apply Permutation_app_tail. apply Permutation_app_comm.
  - exact (Permutation_trans IH1 IH2).
Qed.

Lemma list_prod_permutation_r {A B : Type} (l : list A) (t t' : list B) :
  Permutation t t' -> Permutation (list_prod l t) (list_prod l t').
Proof.
  intros Hp. induction l as [|x l IH]; cbn [list_prod].
  - apply Permutation_refl.
  - apply Permutation_app; [apply Permutation_map; exact Hp|exact IH].
Qed.

Lemma reordered_ranges (divs' tops' : list Z) :
  Permutation divs' DIVS -> Permutation tops' TOPS ->
  Permutation search_space (list_prod divs' tops').
Proof.
  intros Hd Ht. rewrite search_space_unfold. apply Permutation_sym.
  apply Permutation_trans with (list_prod DIVS tops').
  - apply list_prod_permutation_l. exact Hd.
  - apply list_prod_permutation_r. exact Ht.
Qed.



Section WholeSearch.
Import Binary64.

Lemma u52_small : (0 < u52 <= 1 / 1000000000000000)%R.
Proof.
  pose proof u52_pos as H. pose proof u52_scale as Hs.
  assert (Hc : (1000000000000000 <= IZR (2 ^ 52))%R) by (apply IZR_le; vm_compute; discriminate).
  split; [exact H|].
  apply Rmult_le_reg_r with (r := IZR (2 ^ 52)); [lra|].
  rewrite Hs. lra.
Qed.

Lemma FR_scaled (m : positive) (k : Z) (c : Z) :
  (0 <= k)%Z -> Zpos m = (c * 2 ^ k)%Z -> FR m (- k) = IZR c.
Proof.
  intros Hk Hm. unfold FR. rewrite Hm, mult_IZR, IZR_pow2 by lia.
  rewrite Rmult_assoc, (Rmult_comm (bpow k)), bpow_opp. ring.
Qed.

Lemma far_candidate d t :
  (16 <= d <= 4095)%Z -> (0 <= t <= 65535)%Z -> (d * (t + 1) <> 10181818)%Z ->
  (least_error <? candidate_error note_a4 (d, t)) = true.
Proof.
  intros Hd Ht Hp.
  unfold candidate_error. cbn [fst snd].
  change (freq note_a4) with 440.
  rewrite FloatAxioms.ltb_spec, FloatAxioms.abs_spec, sub_spec.
  unfold output_frequency, freq_after_divider, divisor, of_uint32.
  rewrite !div_spec, mul_spec.
  unfold SF64sub, SF64div, SF64mul.
  rewrite u32_small by lia.
  change (Prim2SF least_error) with (S754_finite false 4638038579740672 (-69)).
  change (Prim2SF (of_int SYS_FREQ_HZ)) with (S754_finite false 4697620480000000 (-24)).
  change (Prim2SF 440) with (S754_finite false 7740561859543040 (-44)).
  change (Prim2SF 0.0625) with (S754_finite false 4503599627370496 (-56)).
  destruct (of_uint63_real d ltac:(lia)) as (mD & eD & -> & HdD & HeD & HvD).
  destruct (of_uint63_real (t + 1) ltac:(lia)) as (mW & eW & -> & HdW & HeW & HvW).
  destruct (SFmul_real false mD eD false 4503599627370496 (-56) HdD ltac:(reflexivity)
              ltac:(lia) ltac:(lia)) as (m1 & e1 & Hm1 & Hd1 & He1 & Hv1).
  rewrite Hm1. cbn [xorb]. clear Hm1.
  destruct (SFdiv_real false 4697620480000000 (-24) false m1 e1 ltac:(reflexivity) Hd1
              ltac:(lia) ltac:(lia)) as (m2 & e2 & Hm2 & Hd2 & He2 & Hv2).
  rewrite Hm2. cbn [xorb]. clear Hm2.
  destruct (SFdiv_real false m2 e2 false mW eW Hd2 HdW
              ltac:(lia) ltac:(lia)) as (m3 & e3 & Hm3 & Hd3 & He3 & Hv3).
  rewrite Hm3. cbn [xorb]. clear Hm3.
  assert (HC : FR 4697620480000000 (-24) = 280000000%R)
    by (apply (FR_scaled _ 24 280000000); [lia|reflexivity]).
  assert (HF : FR 7740561859543040 (-44) = 440%R)
    by (apply (FR_scaled _ 44 440); [lia|reflexivity]).
  assert (H16 : FR 4503599627370496 (-56) = (1 / 16)%R).
  { unfold FR. change 4503599627370496%Z with (2 ^ 52)%Z. rewrite IZR_pow2 by lia.
    rewrite <- bpow_add. change (52 + -56)%Z with (- (4))%Z.
    pose proof (bpow_opp 4) as H4. rewrite <- (IZR_pow2 4) in H4 by lia.
    change (IZR (2 ^ 4)) with 16%R in H4. lra. }
  rewrite HC in Hv2. rewrite H16 in Hv1.
  pose proof u52_small as Hu.
  assert (Hdr : (16 <= IZR d)%R) by (apply IZR_le; lia).
  assert (Hwr : (1 <= IZR (t + 1))%R) by (apply IZR_le; lia).
  pose proof (chain_pos u52 (IZR d) (IZR (t + 1)) (FR mD eD) (FR m1 e1) (FR m2 e2)
                (FR mW eW) (FR m3 e3) 280000000 Hu ltac:(lra) Hwr ltac:(lra)
                HvD Hv1 Hv2 HvW Hv3) as (_ & _ & _ & _ & P3).
  pose proof (chain_upper u52 (IZR d) (IZR (t + 1)) (FR mD eD) (FR m1 e1) (FR m2 e2)
                (FR mW eW) (FR m3 e3) 280000000 Hu ltac:(lra) Hwr ltac:(lra)
                HvD Hv1 Hv2 HvW Hv3) as Hup.
  pose proof (chain_lower u52 (IZR d) (IZR (t + 1)) (FR mD eD) (FR m1 e1) (FR m2 e2)
                (FR mW eW) (FR m3 e3) 280000000 Hu ltac:(lra) Hwr ltac:(lra)
                HvD Hv1 Hv2 HvW Hv3) as Hlo.
  assert (Hfar : (35 / 1000000 <= Rabs (440 - FR m3 e3))%R).
  { destruct (Z_lt_le_dec (d * (t + 1)) 10181818) as [Hlt|Hge].
    - assert (Hpr : (0 < IZR d * IZR (t + 1) <= 10181817)%R).
      { rewrite <- mult_IZR. split; [apply IZR_lt; nia|apply IZR_le; lia]. }
      pose proof (far_below u52 _ _ _ Hu P3 Hpr Hlo) as Hb.
      rewrite Rabs_left by lra. lra.
    - assert (Hpr : (10181819 <= IZR d * IZR (t + 1))%R).
      { rewrite <- mult_IZR. apply IZR_le. lia. }
      pose proof (far_above u52 _ _ _ Hu P3 Hpr Hup) as Hb.
      rewrite Rabs_right by lra. lra. }
  destruct (SFsub_abs_real 7740561859543040 (-44) m3 e3 ltac:(reflexivity) Hd3
              ltac:(lia) ltac:(lia) ltac:(lia)) as (m4 & e4 & -> & Hd4 & Hv4).
  { rewrite HF. intros Heq. rewrite Heq, Rminus_diag, Rabs_R0 in Hfar. lra. }
  rewrite HF in Hv4.
  apply SFltb_of_real; [reflexivity|exact Hd4|].
  assert (HE : (FR 4638038579740672 (-69) <= 1 / 65536)%R).
  { unfold FR.
    assert (Hm : (IZR 4638038579740672 <= IZR (2 ^ 53))%R) by (apply IZR_le; vm_compute; discriminate).
    rewrite IZR_pow2 in Hm by lia.
    pose proof (bpow_pos (-69)) as Hb.
    assert (Hs : (bpow 53 * bpow (-69) = 1 / 65536)%R).
    { rewrite <- bpow_add. change (53 + -69)%Z with (- (16))%Z.
      pose proof (bpow_opp 16) as H6. rewrite <- (IZR_pow2 16) in H6 by lia.
      change (IZR (2 ^ 16)) with 65536%R in H6. lra. }
    nra. }
  nra.
Qed.

Lemma prod_eq_dec (x y : Z * Z) : {x = y} + {x <> y}.
Proof. decide equality; apply Z.eq_dec. Qed.

Lemma ltb_asym (x y : float) : (x <? y) = true -> (y <? x) = false.
Proof.
  intros H. destruct (y <? x) eqn:E; [|reflexivity].
  pose proof (ltb_trans _ _ _ H E) as Hxx. rewrite ltb_irrefl in Hxx. discriminate.
Qed.

(** Nothing changes a note that no later pair improves. *)
Lemma best_of_stable l n :
  (forall x, In x l -> (candidate_error n x <? err n) = false) -> best_of l n = n.
Proof.
  induction l as [|c l IH]; intros H; [reflexivity|].
  cbn [best_of fold_left]. unfold consider at 2.
  rewrite (H c (or_introl eq_refl)). apply IH.
  intros x Hx. apply H. right. exact Hx.
Qed.

(** A pair that beats whatever precedes it and is not beaten by what follows
    is the one retained. *)
Lemma best_of_first_hit l1 c l2 n :
  (forall x, In x l1 -> (candidate_error n c <? candidate_error n x) = true) ->
  (candidate_error n c <? err n) = true ->
  (forall x, In x l2 -> (candidate_error n x <? candidate_error n c) = false) ->
  best_of (l1 ++ c :: l2) n = taken n c.
Proof.
  intros H1 Hc H2.
  rewrite best_of_app. cbn [best_of fold_left].
  assert (Hs : consider (best_of l1 n) c = taken n c).
  { unfold consider.
    rewrite (candidate_error_freq n (best_of l1 n) c (freq_best_of l1 n)).
    rewrite (taken_freq n (best_of l1 n) c (freq_best_of l1 n)).
    destruct (best_of_origin l1 n) as [->|(x & Hx & -> & _)].
    - rewrite Hc. reflexivity.
    - cbn [err taken]. rewrite (H1 x Hx). reflexivity. }
  rewrite Hs. apply best_of_stable.
  intros x Hx. cbn [err taken].
  rewrite (candidate_error_freq n (taken n c) x eq_refl). apply H2. exact Hx.
Qed.

Lemma divisors_check :
  forallb
    (fun d => negb (10181818 mod d =? 0)%Z || (d =? 607)%Z || (d =? 1214)%Z ||
              (65536 <? 10181818 / d)%Z)
    DIVS = true.
Proof. vm_compute. reflexivity. Qed.

(** The only pairs of the search space with [div * (top + 1) = 10181818]. *)
Lemma optimum_pairs d t :
  In (d, t) search_space -> (d * (t + 1) = 10181818)%Z ->
  (d, t) = optimum_a \/ (d, t) = optimum_b.
Proof.
  intros Hin Hp. apply in_search_space in Hin. destruct Hin as [Hd Ht].
  pose proof divisors_check as Hc. rewrite forallb_forall in Hc.
  specialize (Hc d (proj2 (in_DIVS d) Hd)).
  assert (Hmod : (10181818 mod d = 0)%Z).
  { rewrite <- Hp, Z.mul_comm. apply Z.mod_mul. lia. }
  assert (Hdiv : (10181818 / d = t + 1)%Z).
  { rewrite <- Hp, Z.mul_comm. apply Z.div_mul. lia. }
  rewrite Hmod, Hdiv in Hc. cbn [Z.eqb negb orb] in Hc.
  destruct (d =? 607)%Z eqn:E1.
  - apply Z.eqb_eq in E1. subst d. left. unfold optimum_a. f_equal. lia.
  - destruct (d =? 1214)%Z eqn:E2.
    + apply Z.eqb_eq in E2. subst d. right. unfold optimum_b. f_equal. lia.
    + cbn [orb] in Hc. apply Z.ltb_lt in Hc. lia.
Qed.

Lemma least_error_b : candidate_error note_a4 optimum_b = least_error.
Proof. vm_compute. reflexivity. Qed.

Lemma least_error_below_start : (least_error <? err note_a4) = true.
Proof. vm_compute. reflexivity. Qed.

(** Every other pair of the search space has a strictly larger error. *)
Lemma least_error_strict x :
  In x search_space -> x <> optimum_a -> x <> optimum_b ->
  (least_error <? candidate_error note_a4 x) = true.
Proof.
  destruct x as [d t]. intros Hin Ha Hb.
  pose proof Hin as Hin'. apply in_search_space in Hin'. destruct Hin' as [Hd Ht].
  apply far_candidate; [exact Hd|exact Ht|].
  intros Hp. destruct (optimum_pairs d t Hin Hp); contradiction.
Qed.

Lemma least_error_minimal x :
  In x search_space -> (candidate_error note_a4 x <? least_error) = false.
Proof.
  intros Hin.
  destruct (prod_eq_dec x optimum_a) as [->|Ha]; [apply ltb_irrefl|].
  destruct (prod_eq_dec x optimum_b) as [->|Hb]; [rewrite least_error_b; apply ltb_irrefl|].
  apply ltb_asym, least_error_strict; assumption.
Qed.


Lemma list_prod_app {A B} (l1 l2 : list A) (l : list B) :
  list_prod (l1 ++ l2) l = list_prod l1 l ++ list_prod l2 l.
Proof.
  induction l1 as [|x l1 IH]; [reflexivity|].
  cbn [list_prod app]. rewrite IH, app_assoc. reflexivity.
Qed.

(** A list of dividers walked up to [d], and the wraps up to [t]: the pair
    (d, t) splits the sequence of pairs walked. *)
Lemma list_prod_split (D1 D2 T1 T2 : list Z) d t :
  list_prod (D1 ++ d :: D2) (T1 ++ t :: T2) =
  (list_prod D1 (T1 ++ t :: T2) ++ map (fun y => (d, y)) T1) ++
  (d, t) :: (map (fun y => (d, y)) T2 ++ list_prod D2 (T1 ++ t :: T2)).
Proof.
  rewrite list_prod_app. cbn [list_prod]. rewrite map_app. cbn [map].
  rewrite <- !app_assoc. reflexivity.
Qed.

(** Whatever the order of the dividers, note 24 ends on the first of the two
    optimal pairs that the walk meets. *)
Lemma winner_of_order (D1 D2 T1 T2 : list Z) d t :
  Permutation (D1 ++ d :: D2) DIVS -> T1 ++ t :: T2 = TOPS ->
  (d, t) = optimum_a \/ (d, t) = optimum_b ->
  ~ In 607%Z D1 -> ~ In 1214%Z D1 -> ~ In t T1 ->
  best_of (list_prod (D1 ++ d :: D2) TOPS) note_a4 = taken note_a4 (d, t).
Proof.
  intros Hperm HT Hc Ha1 Hb1 Ht1.
  assert (Hsp : forall x, In x (list_prod (D1 ++ d :: D2) TOPS) -> In x search_space).
  { intros [xd xt] Hx. apply in_prod_iff in Hx. destruct Hx as [Hxd Hxt].
    apply in_search_space. split.
    - apply in_DIVS. exact (Permutation_in _ Hperm Hxd).
    - apply in_TOPS. exact Hxt. }
  assert (Hce : candidate_error note_a4 (d, t) = least_error).
  { destruct Hc as [->| ->]; [reflexivity|apply least_error_b]. }
  assert (Hother : forall y, In y T1 -> (d, y) <> optimum_a /\ (d, y) <> optimum_b).
  { intros y Hy. unfold optimum_a, optimum_b in *.
    split; intros E; injection E as Ed Ey;
      destruct Hc as [Hc|Hc]; injection Hc as Hd Ht; subst; try lia; contradiction. }
  revert Hsp. rewrite <- HT, list_prod_split. intros Hsp.
  apply best_of_first_hit.
  - intros [xd xt] Hx. rewrite Hce. apply least_error_strict.
    + apply Hsp. apply in_or_app. left. exact Hx.
    + apply in_app_or in Hx. destruct Hx as [Hx|Hx].
      * intros E. injection E as -> ->. apply in_prod_iff in Hx. apply Ha1, Hx.
      * apply in_map_iff in Hx. destruct Hx as (y & Ey & Hy). rewrite <- Ey.
        apply (Hother y Hy).
    + apply in_app_or in Hx. destruct Hx as [Hx|Hx].
      * intros E. injection E as -> ->. apply in_prod_iff in Hx. apply Hb1, Hx.
      * apply in_map_iff in Hx. destruct Hx as (y & Ey & Hy). rewrite <- Ey.
        apply (Hother y Hy).
  - rewrite Hce. exact least_error_below_start.
  - intros x Hx. rewrite Hce. apply least_error_minimal.
    apply Hsp. apply in_or_app. right. right. exact Hx.
Qed.



(** The program's order: dividers upwards. *)
Lemma winner_upwards :
  best_of search_space note_a4 = taken note_a4 optimum_a.
Proof.
  rewrite search_space_unfold.
  rewrite (DIVS_split 607) by lia.
  apply (winner_of_order _ _ (uint_range 0 16773) (uint_range (16773 + 1) 65536)).
  - rewrite <- (DIVS_split 607) by lia. apply Permutation_refl.
  - symmetry. apply TOPS_split. lia.
  - left. reflexivity.
  - apply not_in_uint_range; lia.
  - apply not_in_uint_range; lia.
  - apply not_in_uint_range; lia.
Qed.

Lemma winner_of_reversed (E1 E2 T1 T2 : list Z) d t :
  Permutation (E1 ++ d :: E2) DIVS -> T1 ++ t :: T2 = TOPS ->
  (d, t) = optimum_a \/ (d, t) = optimum_b ->
  ~ In 607%Z E2 -> ~ In 1214%Z E2 -> ~ In t T1 ->
  best_of (list_prod (rev (E1 ++ d :: E2)) TOPS) note_a4 = taken note_a4 (d, t).
Proof.
  intros Hperm HT Hc Ha Hb Ht.
  assert (Hrev : rev (E1 ++ d :: E2) = rev E2 ++ d :: rev E1).
  { rewrite rev_app_distr. cbn [rev]. rewrite <- app_assoc. reflexivity. }
  rewrite Hrev.
  apply (winner_of_order (rev E2) (rev E1) T1 T2 d t).
  - rewrite <- Hrev. apply Permutation_trans with (E1 ++ d :: E2); [|exact Hperm].
    apply Permutation_sym, Permutation_rev.
  - exact HT.
  - exact Hc.
  - rewrite <- in_rev. exact Ha.
  - rewrite <- in_rev. exact Hb.
  - exact Ht.
Qed.

(** The dividers walked downwards. *)
Lemma winner_downwards :
  best_of (list_prod (rev DIVS) TOPS) note_a4 = taken note_a4 optimum_b.
Proof.
  rewrite (DIVS_split 1214) by lia.
  apply (winner_of_reversed _ _ (uint_range 0 8386) (uint_range (8386 + 1) 65536)).
  - rewrite <- (DIVS_split 1214) by lia. apply Permutation_refl.
  - symmetry. apply TOPS_split. lia.
  - right. reflexivity.
  - apply not_in_uint_range; lia.
  - apply not_in_uint_range; lia.
  - apply not_in_uint_range; lia.
Qed.

Lemma nth_error_div_loop (pow : float -> float -> float) divs i :
  (i < 60)%nat ->
  nth_error (div_loop divs TOPS (init_notes pow)) i =
  Some (best_of (list_prod divs TOPS) (start_note pow i)).
Proof.
  intros Hi.
  rewrite div_loop_per_note, nth_error_map, nth_error_init_notes by exact Hi.
  reflexivity.
Qed.

End WholeSearch.


(** * Further properties of the search

    What the loop nest keeps true at every stage, how partial runs compose,
    when a note stays unresolved, and how close the final table is. *)

Lemma Forall2_map_in {A B : Type} (P : A -> B -> Prop) (f : A -> B) (l : list A) :
  (forall x, In x l -> P x (f x)) -> Forall2 P l (map f l).
Proof.
  induction l as [|x l IH]; intros H; [constructor|].
  cbn [map]. constructor.
  - apply H. left. reflexivity.
  - apply IH. intros y Hy. apply H. right. exact Hy.
Qed.

(** A second pass over pairs already evaluated changes nothing. *)
Lemma best_of_again l l' n :
  incl l' l -> best_of l' (best_of l n) = best_of l n.
Proof.
  intros Hincl. apply best_of_stable. intros x Hx.
  rewrite (candidate_error_freq n (best_of l n) x (freq_best_of l n)).
  apply best_of_minimal. apply Hincl. exact Hx.
Qed.

(** X1.  The search is idempotent: run again on its own result, over the same
    ranges or over any part of them, it changes no note. *)
Theorem search_idempotent (divs tops : list Z) (ns : list note) :
  (forall divs' tops', incl divs' divs -> incl tops' tops ->
     div_loop divs' tops' (div_loop divs tops ns) = div_loop divs tops ns) /\
  search (search ns) = search ns.
Proof.
  assert (H : forall D T D' T' l, incl D' D -> incl T' T ->
            div_loop D' T' (div_loop D T l) = div_loop D T l).
  { intros D T D' T' l HD HT.
    rewrite (div_loop_per_note D' T'), (div_loop_per_note D T), map_map.
    apply map_ext. intros n. apply best_of_again.
    intros [d t] Hin. apply in_prod_iff in Hin. apply in_prod_iff.
    split; [apply HD|apply HT]; apply Hin. }
  split.
  - intros divs' tops'. apply H.
  - exact (H DIVS TOPS DIVS TOPS ns (incl_refl _) (incl_refl _)).
Qed.

(** X2.  Invariant of the loop nest, for any table of notes and after any
    dividers and wraps have been walked: every note keeps its [freq]; its
    [err] is not above the error of any pair walked; and the note is either
    untouched or holds a pair that was walked, with [divf = div * 0.0625],
    [out_freq = SYS_FREQ_HZ / divf / (top + 1)], [err = |freq - out_freq|] and
    [err] strictly below the error it started with. *)
Theorem search_invariant (divs tops : list Z) (ns : list note) :
  Forall2
    (fun n m =>
       freq m = freq n /\
       (forall d t, In d divs -> In t tops ->
          (abs (freq n - output_frequency d t) <? err m) = false) /\
       (m = n \/
        (In (div m) divs /\ In (top m) tops /\
         divf m = of_uint32 (div m) * 0.0625 /\
         out_freq m = of_int SYS_FREQ_HZ / divf m / of_uint32 (u32 (top m + 1)) /\
         err m = abs (freq m - out_freq m) /\
         (err m <? err n) = true)))
    ns (div_loop divs tops ns).
Proof.
  rewrite div_loop_per_note. apply Forall2_map_in. intros n _.
  split; [apply freq_best_of|]. split.
  - intros d t Hd Ht.
    apply (best_of_minimal (list_prod divs tops) n (d, t)).
    apply in_prod_iff. split; assumption.
  - destruct (best_of_origin (list_prod divs tops) n) as [H|([d t] & Hin & H & Hlt)];
      [left; exact H|].
    right. rewrite H. apply in_prod_iff in Hin.
    cbn [div top divf out_freq err freq taken fst snd].
    repeat split; try apply Hin; try exact Hlt.
Qed.

Lemma out_freq_init_loop pow ns : forall z n,
  In n (init_loop pow z ns) -> out_freq n = -1.
Proof.
  induction ns as [|m ns IH]; intros z n Hin; [destruct Hin|].
  destruct Hin as [<-|Hin]; [reflexivity|]. exact (IH _ _ Hin).
Qed.

Lemma taken_not_sentinel n c : (out_freq (taken n c) =? -1) = false.
Proof. apply candidate_not_sentinel. Qed.

(** X3.  The sentinel is exact: whatever [pow] returned and whatever dividers
    and wraps have been walked, a note of the initialised table has
    [out_freq == -1] if and only if the search never updated it, because no
    output frequency the loops compute equals -1. *)
Theorem sentinel_marks_untouched (pow : float -> float -> float) (divs tops : list Z) :
  Forall2 (fun n m => (out_freq m =? -1) = true <-> m = n)
    (init_notes pow) (div_loop divs tops (init_notes pow)).
Proof.
  rewrite div_loop_per_note. apply Forall2_map_in. intros n Hn.
  apply out_freq_init_loop in Hn.
  destruct (best_of_origin (list_prod divs tops) n) as [H|(c & _ & H & _)]; rewrite H.
  - split; [reflexivity|]. intros _. rewrite Hn. reflexivity.
  - split.
    + rewrite taken_not_sentinel. discriminate.
    + intros E. pose proof (taken_not_sentinel n c) as Hs.
      rewrite E, Hn in Hs. discriminate Hs.
Qed.

(** ** Merging the results of two runs *)

Section Merge.
Import Binary64.

Lemma SFleb_total_abs (x y z z' : spec_float) :
  SFleb x y = false -> SFltb y x = false ->
  SFltb x z = true -> SFltb y z' = true -> False.
Proof.
  unfold SFleb, SFltb.
  destruct x as [sx|sx| |sx mx ex], y as [sy|sy| |sy my ey];
    destruct z as [sz|sz| |sz mz ez], z' as [sz'|sz'| |sz' mz' ez'];
    try rewrite !SFcompare_finite;
    repeat match goal with s : bool |- _ => destruct s end;
    simpl; try discriminate;
    destruct (lex ex mx ey my) eqn:E1; try discriminate;
    destruct (lex ey my ex mx) eqn:E2; try discriminate;
    intros _ _ _ _;
    repeat match goal with
           | H : lex _ _ _ _ = Lt |- _ => apply lex_Lt in H
           | H : lex _ _ _ _ = Gt |- _ => apply lex_Gt in H
           | H : lex _ _ _ _ = Eq |- _ => apply lex_Eq in H
           end; try lia.
Qed.

(** Two numbers that are not NaN are comparable. *)
Lemma leb_total (x y z z' : float) :
  (x <=? y) = false -> (y <? x) = false ->
  (x <? z) = true -> (y <? z') = true -> False.
Proof.
  rewrite FloatAxioms.leb_spec, !FloatAxioms.ltb_spec. apply SFleb_total_abs.
Qed.

Lemma ltb_of_not_ltb (x y z b : float) :
  (x <? y) = false -> (y <? z) = true -> (x <? b) = true -> (y <? b) = true.
Proof.
  intros Hxy Hy Hx.
  destruct (y <=? x) eqn:E.
  - exact (leb_ltb_trans _ _ _ E Hx).
  - exfalso. exact (leb_total _ _ _ _ E Hxy Hy Hx).
Qed.

Lemma split_position {A : Type} (p : list A) : forall p' (c b : A) q q',
  p ++ c :: q = p' ++ b :: q' ->
  (p = p' /\ c = b /\ q = q') \/ (In c p' /\ In b q) \/ (In b p /\ In c q').
Proof.
  induction p as [|x p IH]; intros p' c b q q' H.
  - destruct p' as [|y p']; cbn [app] in H.
    + injection H as -> ->. left. repeat split.
    + injection H as -> ->. right. left. split; [left; reflexivity|].
      apply in_or_app. right. left. reflexivity.
  - destruct p' as [|y p']; cbn [app] in H.
    + injection H as -> <-. right. right. split; [left; reflexivity|].
      apply in_or_app. right. left. reflexivity.
    + injection H as -> H. destruct (IH _ _ _ _ _ H) as [(-> & -> & ->)|[[H1 H2]|[H1 H2]]].
      * left. repeat split.
      * right. left. split; [right; exact H1|exact H2].
      * right. right. split; [right; exact H1|exact H2].
Qed.

(** The result over [l1 ++ l2] is the better of the results over [l1] and
    over [l2], the one over [l1] on a tie. *)
Lemma best_of_merge l1 l2 n :
  best_of (l1 ++ l2) n =
  if err (best_of l2 n) <? err (best_of l1 n) then best_of l2 n else best_of l1 n.
Proof.
  rewrite best_of_app.
  pose proof (freq_best_of l1 n) as HfA.
  assert (HA : err (best_of l1 n) = err n \/ (err (best_of l1 n) <? err n) = true).
  { destruct (best_of_origin l1 n) as [->|(a & _ & -> & Hlt)]; [left; reflexivity|].
    right. exact Hlt. }
  set (A := best_of l1 n) in *.
  destruct (best_of_first l2 A) as [HC|(p & c & q & Hl2 & HC & Hc & Hp & Hq)].
  - rewrite HC.
    assert (Hmin : forall x, In x l2 -> (candidate_error n x <? err A) = false).
    { intros x Hx. pose proof (best_of_minimal l2 A x Hx) as H.
      rewrite HC, (candidate_error_freq n A x HfA) in H. exact H. }
    assert (Hlt : (err (best_of l2 n) <? err A) = false).
    { destruct (best_of_origin l2 n) as [->|(b & Hb & -> & _)].
      - destruct HA as [->|HA]; [apply ltb_irrefl|].
        destruct (err n <? err A) eqn:E; [|reflexivity].
        pose proof (ltb_trans _ _ _ E HA) as H. rewrite ltb_irrefl in H. discriminate.
      - cbn [err taken]. apply Hmin. exact Hb. }
    rewrite Hlt. reflexivity.
  - rewrite (candidate_error_freq n A c HfA) in Hc.
    rewrite (taken_freq n A c HfA) in HC.
    assert (Hcn : (candidate_error n c <? err n) = true).
    { destruct HA as [<-|HA]; [exact Hc|]. exact (ltb_trans _ _ _ Hc HA). }
    assert (Hin : In c l2) by (rewrite Hl2; apply in_or_app; right; left; reflexivity).
    destruct (best_of_first l2 n) as [HB|(p' & b & q' & Hl2' & HB & Hb & Hp' & Hq')].
    + pose proof (best_of_minimal l2 n c Hin) as H. rewrite HB, Hcn in H. discriminate.
    + assert (Hbc : b = c).
      { rewrite Hl2 in Hl2'.
        destruct (split_position _ _ _ _ _ _ Hl2') as [(_ & E & _)|[[H1 H2]|[H1 H2]]].
        - symmetry. exact E.
        - exfalso. specialize (Hp' c H1). specialize (Hq b H2).
          rewrite (candidate_error_freq n A b HfA), (candidate_error_freq n A c HfA) in Hq.
          exact (leb_total _ _ _ _ Hp' Hq Hc Hb).
        - exfalso. specialize (Hp b H1). specialize (Hq' c H2).
          rewrite (candidate_error_freq n A b HfA), (candidate_error_freq n A c HfA) in Hp.
          exact (leb_total _ _ _ _ Hp Hq' Hb Hc). }
      rewrite HB, HC, Hbc. cbn [err taken]. rewrite Hc. reflexivity.
Qed.

End Merge.

Lemma combine_map_same {A B C : Type} (f : A -> B) (g : A -> C) (l : list A) :
  combine (map f l) (map g l) = map (fun x => (f x, g x)) l.
Proof. induction l as [|x l IH]; [reflexivity|]. cbn [map combine]. rewrite IH. reflexivity. Qed.

(** X4.  Partial results merge: the search over the dividers [divs1 ++ divs2]
    gives, note by note, the better of the results of the two searches over
    [divs1] and over [divs2] run from the same table: the second one when its
    [err] is strictly smaller, the first one otherwise, ties included. *)
Theorem partial_results_merge (divs1 divs2 tops : list Z) (ns : list note) :
  div_loop (divs1 ++ divs2) tops ns =
  map (fun ab => if err (snd ab) <? err (fst ab) then snd ab else fst ab)
    (combine (div_loop divs1 tops ns) (div_loop divs2 tops ns)).
Proof.
  rewrite !div_loop_per_note, combine_map_same, map_map, list_prod_app.
  apply map_ext. intros n. cbn [fst snd]. apply best_of_merge.
Qed.

(** ** Unresolved notes *)

Lemma SFeqb_refl_false (x : spec_float) : SFeqb x x = false -> x = S754_nan.
Proof.
  unfold SFeqb. destruct x as [s|s| |s m e]; simpl; try destruct s; try discriminate;
    try reflexivity;
    rewrite Z.compare_refl; change (Pos.compare_cont Eq m m) with (m ?= m)%positive;
    rewrite Pos.compare_refl; discriminate.
Qed.

(** No error computed from a NaN target compares below anything. *)
Lemma nan_error (x y z : float) : is_nan x = true -> (abs (x - y) <? z) = false.
Proof.
  unfold is_nan. intros H. apply negb_true_iff in H.
  rewrite FloatAxioms.eqb_spec in H. apply SFeqb_refl_false in H.
  rewrite FloatAxioms.ltb_spec, FloatAxioms.abs_spec, sub_spec, H.
  destruct (Prim2SF y); reflexivity.
Qed.

(** A note still at the sentinel was never updated, and this happens exactly
    when no pair of the list comes below its initial error. *)
Lemma untouched_iff l n :
  (out_freq n =? -1) = true ->
  ((out_freq (best_of l n) =? -1) = true -> best_of l n = n) /\
  ((out_freq (best_of l n) =? -1) = true <->
   forall c, In c l -> (candidate_error n c <? err n) = false).
Proof.
  intros Hn.
  assert (Hu : (out_freq (best_of l n) =? -1) = true -> best_of l n = n).
  { intros H. destruct (best_of_origin l n) as [E|(c & _ & E & _)]; [exact E|].
    rewrite E, taken_not_sentinel in H. discriminate. }
  split; [exact Hu|]. split.
  - intros H c Hin. pose proof (best_of_minimal l n c Hin) as Hm.
    rewrite (Hu H) in Hm. exact Hm.
  - intros H. rewrite (best_of_stable l n H). exact Hn.
Qed.

(** X5.  When a note is left unresolved, whatever [pow] returns: note [i] ends
    with [out_freq == -1] if and only if no pair of the search space has an
    error below the initial 9999999999; the note is then as the
    initialisation left it, its report line is "<i>: no config", and the
    table still holds an entry for it, [(0x0,0x0)].  A NaN target is such a
    case. *)
Theorem no_config_condition (pow : float -> float -> float)
    (fmt_lf : nat -> nat -> float -> string) (i : nat) :
  (i < 60)%nat ->
  exists n,
    nth_error (final_notes pow) i = Some n /\
    ((out_freq n =? -1) = true <->
     forall d t, (16 <= d <= 4095)%Z -> (0 <= t <= 65535)%Z ->
       (abs (note_freq pow (Z.of_nat i) - output_frequency d t) <? 9999999999) = false) /\
    ((out_freq n =? -1) = true ->
       n = mk_note (note_freq pow (Z.of_nat i)) 0 0 0 (-1) 9999999999 /\
       report_line fmt_lf (Z.of_nat i) n = (fmt_u (Z.of_nat i) ++ ": no config" ++ nl)%string /\
       table_pair n = "(0x0,0x0)"%string) /\
    (is_nan (note_freq pow (Z.of_nat i)) = true -> (out_freq n =? -1) = true).
Proof.
  intros Hi. exists (best_of search_space (start_note pow i)).
  split; [apply nth_error_final_notes; exact Hi|].
  destruct (untouched_iff search_space (start_note pow i) eq_refl) as [Hu Hiff].
  assert (Hall : (forall c, In c search_space ->
                    (candidate_error (start_note pow i) c <? err (start_note pow i)) = false) <->
                 (forall d t, (16 <= d <= 4095)%Z -> (0 <= t <= 65535)%Z ->
                    (abs (note_freq pow (Z.of_nat i) - output_frequency d t) <? 9999999999)
                    = false)).
  { split.
    - intros H d t Hd Ht. apply (H (d, t)). apply in_search_space. split; assumption.
    - intros H [d t] Hin. apply in_search_space in Hin. exact (H d t (proj1 Hin) (proj2 Hin)). }
  split; [|split].
  - rewrite Hiff. exact Hall.
  - intros H. rewrite (Hu H). split; [reflexivity|]. split; reflexivity.
  - intros H. apply Hiff. intros c _. apply nan_error. exact H.
Qed.

Lemma no_config_condition_witness :
  exists n,
    nth_error (final_notes (fun _ _ => nan)) 0 = Some n /\
    ((out_freq n =? -1) = true <->
     forall d t, (16 <= d <= 4095)%Z -> (0 <= t <= 65535)%Z ->
       (abs (note_freq (fun _ _ => nan) (Z.of_nat 0) - output_frequency d t) <? 9999999999)
       = false) /\
    ((out_freq n =? -1) = true ->
       n = mk_note (note_freq (fun _ _ => nan) (Z.of_nat 0)) 0 0 0 (-1) 9999999999 /\
       report_line (fun _ _ _ => EmptyString) (Z.of_nat 0) n =
         (fmt_u (Z.of_nat 0) ++ ": no config" ++ nl)%string /\
       table_pair n = "(0x0,0x0)"%string) /\
    (is_nan (note_freq (fun _ _ => nan) (Z.of_nat 0)) = true -> (out_freq n =? -1) = true).
Proof.
  apply (no_config_condition (fun _ _ => nan) (fun _ _ _ => EmptyString) 0). lia.
Defined.

(** ** How close the final table is *)

Lemma reference_pairs_check :
  forallb
    (fun i =>
       let c := nth i reference_pairs (0, 0)%Z in
       (16 <=? fst c)%Z && (fst c <=? 4095)%Z && (0 <=? snd c)%Z && (snd c <=? 65535)%Z &&
       forallb
         (fun p =>
            (abs (440 * p - output_frequency (fst c) (snd c)) <? 0x1p-9) &&
            (abs (440 * p - output_frequency (fst c) (snd c)) <? 440 * p * 0x1p-20))
         (neighbours (equal_tempered i)))
    (seq 0 60) = true.
Proof. vm_compute. reflexivity. Qed.

(** X6.  If [pow] returns, at each of the sixty arguments [(i - 24) / 12.],
    the binary64 number nearest to 2^((i - 24)/12) or one of its two
    neighbours ([pow_accurate], which the values of glibc meet), every note
    ends with an error below 2^-9 Hz (about 0.002 Hz) and below 2^-20 (about
    one millionth) of its target frequency. *)
Theorem final_error_small (pow : float -> float -> float) :
  pow_accurate pow ->
  forall i, (i < 60)%nat ->
  exists n,
    nth_error (final_notes pow) i = Some n /\
    (abs (freq n - out_freq n) <? 0x1p-9) = true /\
    (err n <? 0x1p-9) = true /\
    (err n <? freq n * 0x1p-20) = true.
Proof.
  intros Hpow i Hi.
  exists (best_of search_space (start_note pow i)).
  split; [apply nth_error_final_notes; exact Hi|].
  pose proof (pow_accurate_at pow Hpow i Hi) as Hp.
  pose proof reference_pairs_check as Hc. rewrite forallb_forall in Hc.
  specialize (Hc i ltac:(apply in_seq; lia)). cbv zeta in Hc.
  destruct (nth i reference_pairs (0, 0)%Z) as [d t]. cbn [fst snd] in Hc.
  rewrite !andb_true_iff in Hc. destruct Hc as [[[[H1 H2] H3] H4] Hc].
  rewrite forallb_forall in Hc. specialize (Hc _ Hp).
  apply andb_true_iff in Hc. destruct Hc as [Hc1 Hc2].
  apply Z.leb_le in H1, H2, H3, H4.
  assert (Hin : In (d, t) search_space) by (apply in_search_space; lia).
  pose proof (best_of_minimal search_space (start_note pow i) _ Hin) as Hmin.
  destruct (final_note_taken pow Hpow i Hi) as (c & _ & E).
  destruct (best_of_origin search_space (start_note pow i)) as [E0|(c0 & _ & E0 & Hlt)].
  - exfalso. pose proof (first_pair_below pow Hpow i Hi) as Hfirst.
    assert (Hin0 : In (16, 0)%Z search_space) by (apply in_search_space; lia).
    pose proof (best_of_minimal search_space (start_note pow i) _ Hin0) as Hm0.
    rewrite E0 in Hm0. rewrite Hm0 in Hfirst. discriminate.
  - rewrite E0 in Hmin |- *. cbn [err taken freq out_freq] in Hmin |- *.
    assert (Hs1 : (candidate_error (start_note pow i) c0 <? 0x1p-9) = true)
      by exact (ltb_of_not_ltb _ _ _ _ Hmin Hlt Hc1).
    assert (Hs2 : (candidate_error (start_note pow i) c0 <?
                   freq (start_note pow i) * 0x1p-20) = true)
      by exact (ltb_of_not_ltb _ _ _ _ Hmin Hlt Hc2).
    split; [exact Hs1|]. split; [exact Hs1|exact Hs2].
Qed.

Lemma final_error_small_witness :
  exists n,
    nth_error (final_notes pow_sample) 52 = Some n /\
    (abs (freq n - out_freq n) <? 0x1p-9) = true /\
    (err n <? 0x1p-9) = true /\
    (err n <? freq n * 0x1p-20) = true.
Proof.
  apply (final_error_small pow_sample).
  - vm_compute. reflexivity.
  - lia.
Defined.

(** ** The range of the output frequencies *)

Section Range.
Import Binary64.

(** The output frequency of a pair of the search space is a positive finite
    number within a few units in the last place of
    [16 * 280000000 / (d * (t + 1))]. *)
Lemma candidate_enclosure d t :
  (16 <= d <= 4095)%Z -> (0 <= t <= 65535)%Z ->
  exists m e,
    Prim2SF (output_frequency d t) = S754_finite false m e /\
    Zpos (digits2_pos m) = 53%Z /\
    (0 < FR m e)%R /\
    (FR m e * ((1 - 3 * u52) * (IZR d * IZR (t + 1))) <= 16 * 280000000 * (1 + 3 * u52))%R /\
    (16 * 280000000 * (1 - 3 * u52) <= FR m e * ((1 + 4 * u52) * (IZR d * IZR (t + 1))))%R.
Proof.
  intros Hd Ht.
  unfold output_frequency, freq_after_divider, divisor, of_uint32.
  rewrite !div_spec, mul_spec.
  unfold SF64div, SF64mul.
  rewrite u32_small by lia.
  change (Prim2SF (of_int SYS_FREQ_HZ)) with (S754_finite false 4697620480000000 (-24)).
  change (Prim2SF 0.0625) with (S754_finite false 4503599627370496 (-56)).
  destruct (of_uint63_real d ltac:(lia)) as (mD & eD & -> & HdD & HeD & HvD).
  destruct (of_uint63_real (t + 1) ltac:(lia)) as (mW & eW & -> & HdW & HeW & HvW).
  destruct (SFmul_real false mD eD false 4503599627370496 (-56) HdD ltac:(reflexivity)
              ltac:(lia) ltac:(lia)) as (m1 & e1 & Hm1 & Hd1 & He1 & Hv1).
  rewrite Hm1. cbn [xorb]. clear Hm1.
  destruct (SFdiv_real false 4697620480000000 (-24) false m1 e1 ltac:(reflexivity) Hd1
              ltac:(lia) ltac:(lia)) as (m2 & e2 & Hm2 & Hd2 & He2 & Hv2).
  rewrite Hm2. cbn [xorb]. clear Hm2.
  destruct (SFdiv_real false m2 e2 false mW eW Hd2 HdW
              ltac:(lia) ltac:(lia)) as (m3 & e3 & Hm3 & Hd3 & He3 & Hv3).
  rewrite Hm3. cbn [xorb]. clear Hm3.
  assert (HC : FR 4697620480000000 (-24) = 280000000%R)
    by (apply (FR_scaled _ 24 280000000); [lia|reflexivity]).
  assert (H16 : FR 4503599627370496 (-56) = (1 / 16)%R).
  { unfold FR. change 4503599627370496%Z with (2 ^ 52)%Z. rewrite IZR_pow2 by lia.
    rewrite <- bpow_add. change (52 + -56)%Z with (- (4))%Z.
    pose proof (bpow_opp 4) as H4. rewrite <- (IZR_pow2 4) in H4 by lia.
    change (IZR (2 ^ 4)) with 16%R in H4. lra. }
  rewrite HC in Hv2. rewrite H16 in Hv1.
  pose proof u52_small as Hu.
  assert (Hdr : (16 <= IZR d)%R) by (apply IZR_le; lia).
  assert (Hwr : (1 <= IZR (t + 1))%R) by (apply IZR_le; lia).
  exists m3, e3. split; [reflexivity|]. split; [exact Hd3|].
  split; [|split].
  - exact (proj2 (proj2 (proj2 (proj2
      (chain_pos u52 (IZR d) (IZR (t + 1)) (FR mD eD) (FR m1 e1) (FR m2 e2)
         (FR mW eW) (FR m3 e3) 280000000 Hu ltac:(lra) Hwr ltac:(lra)
         HvD Hv1 Hv2 HvW Hv3))))).
  - exact (chain_upper u52 (IZR d) (IZR (t + 1)) (FR mD eD) (FR m1 e1) (FR m2 e2)
             (FR mW eW) (FR m3 e3) 280000000 Hu ltac:(lra) Hwr ltac:(lra)
             HvD Hv1 Hv2 HvW Hv3).
  - exact (chain_lower u52 (IZR d) (IZR (t + 1)) (FR mD eD) (FR m1 e1) (FR m2 e2)
             (FR mW eW) (FR m3 e3) 280000000 Hu ltac:(lra) Hwr ltac:(lra)
             HvD Hv1 Hv2 HvW Hv3).
Qed.

Lemma SFltb_leb (x y : spec_float) : SFltb x y = true -> SFleb x y = true.
Proof.
  unfold SFltb, SFleb. destruct (SFcompare x y) as [[| |]|]; try discriminate; reflexivity.
Qed.

Lemma ltb_leb (x y : float) : (x <? y) = true -> (x <=? y) = true.
Proof. rewrite FloatAxioms.ltb_spec, FloatAxioms.leb_spec. apply SFltb_leb. Qed.

Lemma highest_candidate : output_frequency 16 0 = 280000000.
Proof. vm_compute. reflexivity. Qed.

(** X7.  Every output frequency the search evaluates lies between the one of
    the last pair, (4095, 65535), and the one of the first pair, (16, 0): the
    loops never divide by zero and never produce an infinity or a NaN.  The
    highest is exactly 280000000 Hz, the lowest is above 16.6875 Hz. *)
Theorem candidate_frequency_range (d t : Z) :
  (16 <= d <= 4095)%Z -> (0 <= t <= 65535)%Z ->
  (output_frequency 4095 65535 <=? output_frequency d t) = true /\
  (output_frequency d t <=? output_frequency 16 0) = true /\
  output_frequency 16 0 = 280000000 /\
  (16.6875 <? output_frequency 4095 65535) = true.
Proof.
  intros Hd Ht.
  destruct (candidate_enclosure d t Hd Ht) as (m & e & Heq & Hdm & Hpos & Hup & Hlo).
  pose proof u52_small as Hu.
  split; [|split; [|split; [exact highest_candidate|vm_compute; reflexivity]]].
  - destruct (Z.eq_dec (d * (t + 1)) (4095 * 65536)) as [E|E].
    + assert (d = 4095%Z /\ t = 65535%Z) as [-> ->] by nia.
      vm_compute. reflexivity.
    + apply ltb_leb. rewrite FloatAxioms.ltb_spec, Heq.
      destruct (candidate_enclosure 4095 65535 ltac:(lia) ltac:(lia))
        as (m0 & e0 & Heq0 & Hdm0 & Hpos0 & Hup0 & _).
      rewrite Heq0. apply SFltb_of_real; [exact Hdm0|exact Hdm|].
      change (IZR 4095 * IZR (65535 + 1))%R with (4095 * 65536)%R in Hup0.
      assert (Hp : (IZR d * IZR (t + 1) <= 268365825)%R).
      { rewrite <- mult_IZR. apply IZR_le. nia. }
      assert (A0 : (FR m0 e0 * ((1 - 3 / 1000000000000000) * (4095 * 65536)) <=
                    FR m0 e0 * ((1 - 3 * u52) * (4095 * 65536)))%R).
      { apply Rmult_le_compat_l; [lra|]. apply Rmult_le_compat_r; lra. }
      assert (A1 : (FR m e * ((1 + 4 * u52) * (IZR d * IZR (t + 1))) <=
                    FR m e * ((1 + 4 / 1000000000000000) * 268365825))%R).
      { apply Rmult_le_compat_l; [lra|]. apply Rmult_le_compat; try lra.
        rewrite <- mult_IZR. apply IZR_le. nia. }
      lra.
  - rewrite highest_candidate.
    destruct (Z.eq_dec (d * (t + 1)) 16) as [E|E].
    + assert (d = 16%Z /\ t = 0%Z) as [-> ->] by nia.
      vm_compute. reflexivity.
    + apply ltb_leb. rewrite FloatAxioms.ltb_spec, Heq.
      change (Prim2SF 280000000) with (S754_finite false 4697620480000000 (-24)).
      apply SFltb_of_real; [exact Hdm|reflexivity|].
      assert (HC : FR 4697620480000000 (-24) = 280000000%R)
        by (apply (FR_scaled _ 24 280000000); [lia|reflexivity]).
      rewrite HC.
      assert (Hp : (17 <= IZR d * IZR (t + 1))%R).
      { rewrite <- mult_IZR. apply IZR_le. nia. }
      assert (A : (FR m e * ((1 - 3 / 1000000000000000) * 17) <=
                   FR m e * ((1 - 3 * u52) * (IZR d * IZR (t + 1))))%R).
      { apply Rmult_le_compat_l; [lra|]. apply Rmult_le_compat; lra. }
      lra.
Qed.

End Range.

Lemma candidate_frequency_range_witness :
  (output_frequency 4095 65535 <=? output_frequency 607 16773) = true /\
  (output_frequency 607 16773 <=? output_frequency 16 0) = true /\
  output_frequency 16 0 = 280000000 /\
  (16.6875 <? output_frequency 4095 65535) = true.
Proof. apply (candidate_frequency_range 607 16773); lia. Defined.

(** ** Pairs of equal output frequency

    Multiplying an operand by two changes the exponent of a binary64 product
    or quotient, not its mantissa, as long as no result leaves the normal
    range. *)

Section Scaling.
Local Open Scope Z_scope.

Lemma Zdigits2_nonneg m : 0 <= Zdigits2 m.
Proof. destruct m; simpl; lia. Qed.

(** In the normal range the shift of a mantissa does not depend on the
    exponent. *)
Lemma shr_fexp_shift m e l :
  -1021 <= Zdigits2 m + e ->
  shr_fexp prec emax m (e + 1) l =
  (fst (shr_fexp prec emax m e l), snd (shr_fexp prec emax m e l) + 1).
Proof.
  intros H. unfold shr_fexp. rewrite !fexp_normal by lia.
  replace (Zdigits2 m + (e + 1) - 53 - (e + 1)) with (Zdigits2 m + e - 53 - e) by lia.
  unfold shr. destruct (Zdigits2 m + e - 53 - e); cbn [fst snd]; f_equal; lia.
Qed.

Lemma binary_round_aux_shift s q e l :
  53 <= Zpos (digits2_pos q) -> -950 <= Zpos (digits2_pos q) + e <= 1000 ->
  exists m e2,
    binary_round_aux prec emax s (Zpos q) e l = S754_finite s m e2 /\
    binary_round_aux prec emax s (Zpos q) (e + 1) l = S754_finite s m (e2 + 1) /\
    Zpos (digits2_pos m) = 53 /\
    e + Zpos (digits2_pos q) - 53 <= e2 <= e + Zpos (digits2_pos q) - 52.
Proof.
  intros Hd Hr.
  destruct (binary_round_aux_enclosure s q e l Hd ltac:(lia))
    as (m & k & Heq & Hdm & Hk & _).
  exists m, (e + k). split; [exact Heq|]. split; [|split; [exact Hdm|lia]].
  revert Heq. unfold binary_round_aux.
  rewrite (shr_fexp_shift (Zpos q) e l) by (rewrite Zdigits2_pos; lia).
  assert (He' : snd (shr_fexp prec emax (Zpos q) e l) = e + (Zpos (digits2_pos q) - 53)).
  { unfold shr_fexp. rewrite Zdigits2_pos, fexp_normal by lia.
    replace (Zpos (digits2_pos q) + e - 53 - e) with (Zpos (digits2_pos q) - 53) by lia.
    apply shr_m_shr; [rewrite shr_m_of_loc; lia|lia]. }
  destruct (shr_fexp prec emax (Zpos q) e l) as [mrs' e']. cbn [fst snd] in *.
  set (m2 := round_nearest_even (shr_m mrs') (loc_of_shr_record mrs')).
  rewrite (shr_fexp_shift m2 e' loc_Exact) by (pose proof (Zdigits2_nonneg m2); lia).
  destruct (shr_fexp prec emax m2 e' loc_Exact) as [mrs'' e'']. cbn [fst snd].
  destruct (shr_m mrs'') as [|p|p]; try discriminate.
  destruct (e'' <=? emax - prec) eqn:Ee; [|discriminate].
  intros Heq. injection Heq as -> ->.
  assert (He1 : (e + k + 1 <=? emax - prec) = true)
    by (apply Z.leb_le; unfold emax, prec; lia).
  rewrite He1. reflexivity.
Qed.

Lemma SFmul_shift sx mx ex sy my ey :
  Zpos (digits2_pos mx) = 53 -> Zpos (digits2_pos my) = 53 ->
  -400 <= ex <= 400 -> -400 <= ey <= 400 ->
  exists m e,
    SFmul prec emax (S754_finite sx mx ex) (S754_finite sy my ey) =
      S754_finite (xorb sx sy) m e /\
    SFmul prec emax (S754_finite sx mx (ex + 1)) (S754_finite sy my ey) =
      S754_finite (xorb sx sy) m (e + 1) /\
    Zpos (digits2_pos m) = 53 /\
    ex + ey + 52 <= e <= ex + ey + 54.
Proof.
  intros Hx Hy Hex Hey.
  apply digits_53_bounds in Hx, Hy.
  assert (Hq : 2 ^ 104 <= Zpos (mx * my) < 2 ^ 106).
  { rewrite Pos2Z.inj_mul.
    change (2 ^ 104) with (2 ^ 52 * 2 ^ 52). change (2 ^ 106) with (2 ^ 53 * 2 ^ 53).
    nia. }
  pose proof (digits_between _ 104 106 ltac:(lia) Hq) as Hd.
  cbn [SFmul].
  replace (ex + 1 + ey) with (ex + ey + 1) by lia.
  destruct (binary_round_aux_shift (xorb sx sy) (mx * my) (ex + ey) loc_Exact
              ltac:(lia) ltac:(lia)) as (m & e & H1 & H2 & Hdm & He).
  exists m, e. repeat split; try assumption; lia.
Qed.

(** Doubling the divisor halves the quotient exactly. *)
Lemma SFdiv_shift sx mx ex sy my ey :
  Zpos (digits2_pos mx) = 53 -> Zpos (digits2_pos my) = 53 ->
  -400 <= ex <= 400 -> -400 <= ey <= 400 ->
  exists m e,
    SFdiv prec emax (S754_finite sx mx ex) (S754_finite sy my (ey + 1)) =
      S754_finite (xorb sx sy) m e /\
    SFdiv prec emax (S754_finite sx mx ex) (S754_finite sy my ey) =
      S754_finite (xorb sx sy) m (e + 1) /\
    Zpos (digits2_pos m) = 53 /\
    ex - ey - 54 <= e <= ex - ey - 52.
Proof.
  intros Hx Hy Hex Hey.
  cbn [SFdiv].
  rewrite (SFdiv_core_canonical mx ex my ey Hx Hy ltac:(lia)).
  rewrite (SFdiv_core_canonical mx ex my (ey + 1) Hx Hy ltac:(lia)).
  apply digits_53_bounds in Hx, Hy.
  set (a := Zpos mx * 2 ^ 53).
  pose proof (Z.div_mod a (Zpos my) ltac:(lia)) as Hdm.
  pose proof (Z.mod_pos_bound a (Zpos my) ltac:(lia)) as Hmod.
  set (q := a / Zpos my) in *.
  assert (Hq1 : q * Zpos my <= a < (q + 1) * Zpos my) by lia.
  assert (Hq : 2 ^ 52 <= q < 2 ^ 54).
  { assert (2 ^ 105 <= a < 2 ^ 106).
    { unfold a. change (2 ^ 105) with (2 ^ 52 * 2 ^ 53). change (2 ^ 106) with (2 ^ 53 * 2 ^ 53).
      nia. }
    change (2 ^ 105) with (2 ^ 52 * 2 ^ 53) in H. change (2 ^ 106) with (2 ^ 54 * 2 ^ 52) in H.
    split; nia. }
  destruct q as [|pq|pq] eqn:Eq; try lia.
  pose proof (digits_between pq 52 54 ltac:(lia) Hq) as Hd.
  replace (ex - ey - 53) with (ex - (ey + 1) - 53 + 1) by lia.
  destruct (binary_round_aux_shift (xorb sx sy) pq (ex - (ey + 1) - 53)
              (new_location (Zpos my) (a mod Zpos my)) ltac:(lia) ltac:(lia))
    as (m & e & H1 & H2 & Hdm' & He).
  exists m, e. repeat split; try assumption; lia.
Qed.

(** A quotient depends on the exponents of its operands through their
    difference only. *)
Lemma SFdiv_exponents sx mx ex sy my ey :
  SFdiv prec emax (S754_finite sx mx (ex - 1)) (S754_finite sy my ey) =
  SFdiv prec emax (S754_finite sx mx ex) (S754_finite sy my (ey + 1)).
Proof.
  cbn [SFdiv]. unfold SFdiv_core_binary.
  replace (Zdigits2 (Zpos mx) + (ex - 1) - (Zdigits2 (Zpos my) + ey))
    with (Zdigits2 (Zpos mx) + ex - (Zdigits2 (Zpos my) + (ey + 1))) by lia.
  replace (ex - 1 - ey) with (ex - (ey + 1)) by lia.
  reflexivity.
Qed.

(** The conversion of an integer and of its double differ by one in the
    exponent. *)
Lemma of_uint63_double z :
  0 < z < 2 ^ 52 ->
  exists m e,
    Prim2SF (of_uint63 (Uint63.of_Z z)) = S754_finite false m e /\
    Prim2SF (of_uint63 (Uint63.of_Z (2 * z))) = S754_finite false m (e + 1) /\
    Zpos (digits2_pos m) = 53 /\ -52 <= e <= 0.
Proof.
  intros Hz. rewrite !of_uint63_spec, !Uint63.of_Z_spec.
  rewrite !Z.mod_small by (change Uint63.wB with (2 ^ 63); lia).
  destruct z as [|p|p]; try lia.
  change (2 * Zpos p) with (Zpos p~0).
  cbn [binary_normalize]. unfold binary_round.
  cbn [digits2_pos]. rewrite Pos2Z.inj_succ.
  assert (Hp : 0 < Zpos (digits2_pos p) <= 52).
  { split; [lia|]. apply (digits_between p 0 52); [lia|]. simpl (2 ^ 0). lia. }
  set (d := Zpos (digits2_pos p)) in *.
  rewrite !fexp_normal by lia.
  pose proof (shl_align_spec p 0 (d + 0 - 53) ltac:(lia)) as [Hm He].
  pose proof (shl_align_spec p~0 0 (Z.succ d + 0 - 53) ltac:(lia)) as [Hm' He'].
  destruct (shl_align p 0 (d + 0 - 53)) as [mz ez].
  destruct (shl_align p~0 0 (Z.succ d + 0 - 53)) as [mz' ez'].
  cbn [fst snd] in *. subst ez ez'.
  assert (Hmm : mz' = mz).
  { apply Pos2Z.inj. rewrite Hm, Hm', Pos2Z.inj_xO.
    replace (0 - (d + 0 - 53)) with (Z.succ (0 - (Z.succ d + 0 - 53))) by lia.
    rewrite Z.pow_succ_r by lia. ring. }
  subst mz'.
  assert (Hdz : Zpos (digits2_pos mz) = 53).
  { pose proof (digits2_pos_bounds p) as Hb. fold d in Hb.
    apply digits2_pos_unique. rewrite Hm. change (53 - 1) with 52.
    replace (0 - (d + 0 - 53)) with (53 - d) by lia.
    assert (E52 : 2 ^ 52 = 2 ^ (d - 1) * 2 ^ (53 - d)).
    { rewrite <- pow2_split by lia. f_equal. lia. }
    assert (E53 : 2 ^ 53 = 2 ^ d * 2 ^ (53 - d)).
    { rewrite <- pow2_split by lia. f_equal. lia. }
    rewrite E52, E53.
    assert (0 < 2 ^ (53 - d)) by (apply Z.pow_pos_nonneg; lia). nia. }
  replace (Z.succ d + 0 - 53) with (d + 0 - 53 + 1) by lia.
  destruct (binary_round_aux_shift false mz (d + 0 - 53) loc_Exact ltac:(lia) ltac:(lia))
    as (m & e & H1 & H2 & Hdm & He).
  exists m, e. repeat split; try assumption; lia.
Qed.

End Scaling.

(** Twice the divider with the period [t + 1], or the divider with twice the
    period: the same output frequency, bit for bit. *)
Lemma doubled_divider_tie (d t : Z) :
  (16 <= d <= 2047)%Z -> (0 <= t <= 32767)%Z ->
  output_frequency (2 * d) t = output_frequency d (2 * t + 1).
Proof.
  intros Hd Ht. apply Prim2SF_inj.
  unfold output_frequency, freq_after_divider, divisor, of_uint32.
  rewrite !div_spec, !mul_spec. unfold SF64div, SF64mul.
  rewrite !u32_small by lia.
  replace (2 * t + 1 + 1)%Z with (2 * (t + 1))%Z by lia.
  destruct (of_uint63_double d ltac:(lia)) as (mD & eD & HD1 & HD2 & HdD & HeD).
  destruct (of_uint63_double (t + 1) ltac:(lia)) as (mW & eW & HW1 & HW2 & HdW & HeW).
  rewrite HD1, HD2, HW1, HW2.
  change (Prim2SF (of_int SYS_FREQ_HZ)) with (S754_finite false 4697620480000000 (-24)).
  change (Prim2SF 0.0625) with (S754_finite false 4503599627370496 (-56)).
  destruct (SFmul_shift false mD eD false 4503599627370496 (-56) HdD ltac:(reflexivity)
              ltac:(lia) ltac:(lia)) as (m1 & e1 & M1 & M2 & Hd1 & He1).
  rewrite M1, M2. cbn [xorb].
  destruct (SFdiv_shift false 4697620480000000 (-24) false m1 e1 ltac:(reflexivity) Hd1
              ltac:(lia) ltac:(lia)) as (mF & eF & F2 & F1 & HdF & HeF).
  rewrite F1, F2. cbn [xorb].
  replace eF with (eF + 1 - 1)%Z at 1 by lia.
  apply SFdiv_exponents.
Qed.

Lemma candidate_error_tie n d t :
  (16 <= d <= 2047)%Z -> (0 <= t <= 32767)%Z ->
  candidate_error n (2 * d, t)%Z = candidate_error n (d, 2 * t + 1)%Z.
Proof.
  intros Hd Ht. unfold candidate_error. cbn [fst snd].
  rewrite (doubled_divider_tie d t Hd Ht). reflexivity.
Qed.

Lemma consider_tie n c1 c2 :
  candidate_error n c2 = candidate_error n c1 ->
  consider (consider n c1) c2 = consider n c1.
Proof.
  intros E. unfold consider at 1.
  rewrite (candidate_error_freq n (consider n c1) c2 (freq_consider n c1)), E.
  unfold consider. destruct (candidate_error n c1 <? err n) eqn:H.
  - cbn [err taken]. rewrite Binary64.ltb_irrefl. reflexivity.
  - rewrite H. reflexivity.
Qed.

(** X8.  Ties are built into the search space: for a divider [d <= 2047] and a
    wrap [t <= 32767], the pairs [(2 * d, t)] and [(d, 2 * t + 1)] give the
    same output frequency bit for bit, hence the same error for every note,
    and the one evaluated second never replaces the other. *)
Theorem doubled_divider_same_frequency (d t : Z) :
  (16 <= d <= 2047)%Z -> (0 <= t <= 32767)%Z ->
  output_frequency (2 * d) t = output_frequency d (2 * t + 1) /\
  (forall n, candidate_error n (2 * d, t)%Z = candidate_error n (d, 2 * t + 1)%Z) /\
  (forall n, consider (consider n (d, 2 * t + 1)%Z) (2 * d, t)%Z =
             consider n (d, 2 * t + 1)%Z) /\
  (forall n, consider (consider n (2 * d, t)%Z) (d, 2 * t + 1)%Z =
             consider n (2 * d, t)%Z).
Proof.
  intros Hd Ht.
  split; [exact (doubled_divider_tie d t Hd Ht)|].
  split; [intros n; exact (candidate_error_tie n d t Hd Ht)|].
  split; intros n; apply consider_tie.
  - exact (candidate_error_tie n d t Hd Ht).
  - symmetry. exact (candidate_error_tie n d t Hd Ht).
Qed.

Lemma doubled_divider_same_frequency_witness :
  output_frequency (2 * 607) 8386 = output_frequency 607 (2 * 8386 + 1) /\
  (forall n, candidate_error n (2 * 607, 8386)%Z = candidate_error n (607, 2 * 8386 + 1)%Z) /\
  (forall n, consider (consider n (607, 2 * 8386 + 1)%Z) (2 * 607, 8386)%Z =
             consider n (607, 2 * 8386 + 1)%Z) /\
  (forall n, consider (consider n (2 * 607, 8386)%Z) (607, 2 * 8386 + 1)%Z =
             consider n (2 * 607, 8386)%Z).
Proof. apply (doubled_divider_same_frequency 607 8386); lia. Defined.

(** ** Ties in a walk in increasing order

    The order in which the dividers are walked is a parameter here: the
    statements below hold for a walk in increasing order of the dividers and
    of the wraps, as a single thread makes it.  Under another order the pair
    retained among pairs of equal error is the first one of that order. *)

Lemma sorted_split (l1 l2 : list Z) (x : Z) :
  StronglySorted Z.lt (l1 ++ x :: l2) ->
  Forall (fun y => (y < x)%Z) l1 /\ Forall (fun y => (x < y)%Z) l2.
Proof.
  induction l1 as [|a l1 IH]; cbn [app]; intros H; apply StronglySorted_inv in H;
    destruct H as [Hs Hf].
  - split; [constructor|exact Hf].
  - destruct (IH Hs) as [H1 H2]. split; [|exact H2].
    constructor; [|exact H1].
    rewrite Forall_forall in Hf. apply Hf. apply in_or_app. right. left. reflexivity.
Qed.

(** What a sorted list holds below one of its elements comes before it. *)
Lemma sorted_before (l : list Z) (x : Z) :
  StronglySorted Z.lt l -> In x l ->
  exists l1 l2, l = l1 ++ x :: l2 /\ ~ In x l1 /\
    forall y, In y l -> (y < x)%Z -> In y l1.
Proof.
  intros Hs Hin. destruct (in_split x l Hin) as (l1 & l2 & ->).
  destruct (sorted_split l1 l2 x Hs) as [H1 H2].
  rewrite Forall_forall in H1, H2.
  exists l1, l2. split; [reflexivity|]. split.
  - intros Hx. specialize (H1 x Hx). lia.
  - intros y Hy Hlt. apply in_app_or in Hy. destruct Hy as [Hy|[Hy|Hy]].
    + exact Hy.
    + lia.
    + specialize (H2 y Hy). lia.
Qed.

(** A pair is not retained when a pair evaluated before it has the same
    error. *)
Lemma earlier_tie_wins l1 l2 n c c' :
  In c' l1 -> candidate_error n c = candidate_error n c' -> ~ In c l1 ->
  best_of (l1 ++ l2) n <> taken n c \/ best_of (l1 ++ l2) n = n.
Proof.
  intros Hin Htie Hnot. rewrite best_of_merge.
  pose proof (best_of_minimal l1 n _ Hin) as Hmin.
  destruct (err (best_of l2 n) <? err (best_of l1 n)) eqn:E.
  - left. intros HB. rewrite HB in E. cbn [err taken] in E.
    rewrite Htie, Hmin in E. discriminate.
  - destruct (best_of_origin l1 n) as [HA|([a1 a2] & Ha & HA & _)]; [right; exact HA|].
    left. rewrite HA. intros Heq. apply Hnot.
    pose proof (f_equal div Heq) as E1. pose proof (f_equal top Heq) as E2.
    cbn [div top taken fst snd] in E1, E2. destruct c as [c1 c2]. cbn [fst snd] in E1, E2.
    subst c1 c2. exact Ha.
Qed.

(** The pairs walked before [(d, t)] in increasing order: those of a smaller
    divider, and those of the same divider and a smaller wrap. *)
Lemma walked_before (divs tops : list Z) d t :
  StronglySorted Z.lt divs -> StronglySorted Z.lt tops ->
  In d divs -> In t tops ->
  exists l1 l2,
    list_prod divs tops = l1 ++ l2 /\ ~ In (d, t) l1 /\
    forall d' t', In d' divs -> In t' tops ->
      (d' < d \/ (d' = d /\ t' < t))%Z -> In (d', t') l1.
Proof.
  intros Hsd Hst Hd Ht.
  destruct (sorted_before divs d Hsd Hd) as (D1 & D2 & ED & HnD & HbD).
  destruct (sorted_before tops t Hst Ht) as (T1 & T2 & ET & HnT & HbT).
  exists (list_prod D1 tops ++ map (fun y => (d, y)) T1),
         ((d, t) :: (map (fun y => (d, y)) T2 ++ list_prod D2 tops)).
  split; [|split].
  - rewrite ED at 1. rewrite ET at 1. rewrite list_prod_split, <- ET. reflexivity.
  - intros Hin. apply in_app_or in Hin. destruct Hin as [Hin|Hin].
    + apply in_prod_iff in Hin. apply HnD, Hin.
    + apply in_map_iff in Hin. destruct Hin as (y & Ey & Hy).
      injection Ey as ->. exact (HnT Hy).
  - intros d' t' Hd' Ht' [Hlt|[-> Hlt]]; apply in_or_app.
    + left. apply in_prod_iff. split; [exact (HbD d' Hd' Hlt)|exact Ht'].
    + right. apply in_map_iff. exists t'. split; [reflexivity|exact (HbT t' Ht' Hlt)].
Qed.

(** In a walk in increasing order, a pair evaluated after one of the same
    error is not the one retained. *)
Lemma later_tie_loses (divs tops : list Z) n d t d' t' :
  StronglySorted Z.lt divs -> StronglySorted Z.lt tops ->
  In d divs -> In t tops -> In d' divs -> In t' tops ->
  (d' < d \/ (d' = d /\ t' < t))%Z ->
  candidate_error n (d, t) = candidate_error n (d', t') ->
  best_of (list_prod divs tops) n <> taken n (d, t) \/ best_of (list_prod divs tops) n = n.
Proof.
  intros Hsd Hst Hd Ht Hd' Ht' Hlt Htie.
  destruct (walked_before divs tops d t Hsd Hst Hd Ht) as (l1 & l2 & -> & Hnot & Hbefore).
  apply (earlier_tie_wins l1 l2 n (d, t) (d', t')).
  - apply Hbefore; assumption.
  - exact Htie.
  - exact Hnot.
Qed.

(** X9.  With the dividers and the wraps walked in increasing order,
    whichever they are and whatever the table of notes, a note that the walk
    has updated never holds a pair [(2 * d, t)] when the pair [(d, 2 * t + 1)]
    was walked too ([d] in 16..2047, [t] in 0..32767): that pair gives the
    same frequency and is met first, so the smaller divider is kept.  The
    order is a hypothesis: in another order the pair met first is kept. *)
Theorem smaller_divider_kept (divs tops : list Z) (ns : list note) :
  StronglySorted Z.lt divs -> StronglySorted Z.lt tops ->
  Forall2
    (fun n m =>
       forall d t, (16 <= d <= 2047)%Z -> (0 <= t <= 32767)%Z ->
         In d divs -> In (2 * t + 1)%Z tops ->
         div m = (2 * d)%Z -> top m = t -> m = n)
    ns (div_loop divs tops ns).
Proof.
  intros Hsd Hst. rewrite div_loop_per_note. apply Forall2_map_in.
  intros n _ d t Hd Ht Hind Hint Hdiv Htop.
  destruct (best_of_origin (list_prod divs tops) n) as [H|([D T] & Hin & H & Hlt)];
    [exact H|].
  exfalso. rewrite H in Hdiv, Htop. cbn [div top taken fst snd] in Hdiv, Htop. subst D T.
  apply in_prod_iff in Hin. destruct Hin as [HinD HinT].
  destruct (later_tie_loses divs tops n (2 * d) t d (2 * t + 1) Hsd Hst HinD HinT Hind Hint
              ltac:(lia) (candidate_error_tie n d t Hd Ht)) as [Hne|Hsame].
  - apply Hne. exact H.
  - rewrite Hsame in H. rewrite H in Hlt. cbn [err taken] in Hlt.
    rewrite Binary64.ltb_irrefl in Hlt. discriminate.
Qed.

Lemma smaller_divider_kept_witness :
  Forall2
    (fun n m =>
       forall d t, (16 <= d <= 2047)%Z -> (0 <= t <= 32767)%Z ->
         In d [607; 1214]%Z -> In (2 * t + 1)%Z [8386; 16773]%Z ->
         div m = (2 * d)%Z -> top m = t -> m = n)
    (init_notes pow_sample)
    (div_loop [607; 1214]%Z [8386; 16773]%Z (init_notes pow_sample)).
Proof.
  apply (smaller_divider_kept [607; 1214]%Z [8386; 16773]%Z (init_notes pow_sample)).
  - repeat constructor.
  - repeat constructor.
Defined.

(** X10.  The tie-break of a walk in increasing order: with the dividers and
    the wraps walked in increasing order, whichever they are and whatever the
    table of notes, if a pair walked has exactly the error a note ends with,
    then the note is untouched, or the pair it holds has a smaller divider, or
    the same divider and a wrap not above.  Among the pairs of least error
    such a walk keeps the least divider, then the least wrap.  The order is a
    hypothesis: in another order the pair met first is kept. *)
Theorem first_optimum_kept (divs tops : list Z) (ns : list note) :
  StronglySorted Z.lt divs -> StronglySorted Z.lt tops ->
  Forall2
    (fun n m =>
       forall d t, In d divs -> In t tops ->
         abs (freq m - output_frequency d t) = err m ->
         m = n \/ (div m < d \/ (div m = d /\ top m <= t))%Z)
    ns (div_loop divs tops ns).
Proof.
  intros Hsd Hst. rewrite div_loop_per_note. apply Forall2_map_in.
  intros n _ d t Hd Ht Herr.
  rewrite freq_best_of in Herr.
  destruct (best_of_origin (list_prod divs tops) n) as [H|([D T] & Hin & H & Hlt)];
    [left; exact H|].
  right. rewrite H in Herr |- *. cbn [div top err taken fst snd] in *.
  apply in_prod_iff in Hin. destruct Hin as [HinD HinT].
  assert (Hlate : forall d' t', In d' divs -> In t' tops ->
            (d' < D \/ (d' = D /\ t' < T))%Z ->
            candidate_error n (D, T) = candidate_error n (d', t') -> False).
  { intros d' t' Hd' Ht' Hlex Htie.
    destruct (later_tie_loses divs tops n D T d' t' Hsd Hst HinD HinT Hd' Ht' Hlex Htie)
      as [Hne|Hsame].
    - apply Hne. exact H.
    - rewrite Hsame in H. rewrite H in Hlt. cbn [err taken] in Hlt.
      rewrite Binary64.ltb_irrefl in Hlt. discriminate. }
  destruct (Z_lt_le_dec D d) as [HD|HD]; [left; exact HD|].
  destruct (Z_lt_le_dec d D) as [HD'|HD'].
  - exfalso. apply (Hlate d t Hd Ht); [left; exact HD'|symmetry; exact Herr].
  - assert (d = D) by lia. subst d. right. split; [reflexivity|].
    destruct (Z_lt_le_dec t T) as [HT|HT]; [exfalso|exact HT].
    apply (Hlate D t Hd Ht); [right; split; [reflexivity|exact HT]|symmetry; exact Herr].
Qed.

Lemma first_optimum_kept_witness :
  Forall2
    (fun n m =>
       forall d t, In d [607; 1214]%Z -> In t [8386; 16773]%Z ->
         abs (freq m - output_frequency d t) = err m ->
         m = n \/ (div m < d \/ (div m = d /\ top m <= t))%Z)
    (init_notes pow_sample)
    (div_loop [607; 1214]%Z [8386; 16773]%Z (init_notes pow_sample)).
Proof.
  apply (first_optimum_kept [607; 1214]%Z [8386; 16773]%Z (init_notes pow_sample)).
  - repeat constructor.
  - repeat constructor.
Defined.
